(** * MangaExtension: the popup's store, form controller and renderer

    A shallow embedding of the extension's JavaScript:
    - the form and action handlers ([addNewManga], [updateMangaDetails],
      [generateUniqueTitle], [validateMangaData], [handleChapterUpdate],
      [handleFavoriteToggle], [handleLinkReload], [handleMangaEdition],
      [handleMangaDeletion], [deleteManga], ...);
    - the renderer and the listeners of [scripts/loadMangas.js] ([loadMangas],
      [createMangaElement], [getClosestManga], the [error] and [click]
      listeners);
    - the first version of the add form ([src/addManga.js]).

    Conventions of the model.
    - A JavaScript string is a Rocq [string]; each character stands for one
      code unit, so [String.length] is [.length] and [substring] counts
      characters.
    - A JavaScript number that holds a chapter count, an index or a batch size
      is the integer [Z] it denotes; [NaN] is [None] where [parseInt] can
      produce it.  The sums and differences of counts are rounded as those
      of doubles are ([Num.round]); the conversions between numbers and
      strings are the code's for numbers of magnitude at most [2^53]
      ([Num.safe]), and the properties of the chapter counter whose truth
      depends on a conversion carry that bound.
    - [createMangaElement] gives the strings the template interpolates; the
      text an element shows is read off them for records whose strings hold
      no HTML markup ([shownTitle]).
    - Manga records are objects: the global [mangaList] is an array of
      references into a heap, so that in-place mutation and [!==] on objects
      mean what they mean in the source.
    - The collaborators that live outside these files ([saveMangas],
      [loadFilteredMangas], [hideMangaForm], [closeAllDialogs], [translate],
      [handleMaxChapters], [processRemainingBookmarks], the DOM dialogs) are
      recorded as events of a trace, in call order. *)

From Stdlib Require Import ZArith Ascii String List Lia.
From stdpp Require Import base tactics option list strings pretty gmap.

Open Scope string_scope.

(** ** JavaScript string and number primitives *)

Module Js.

(** [WhiteSpace] and [LineTerminator] code units below 256, the ones
    [String.prototype.trim] and [parseInt] strip. *)
Definition isWhiteSpace (c : ascii) : bool :=
  let n := nat_of_ascii c in
  (Nat.eqb n 9 || Nat.eqb n 10 || Nat.eqb n 11 || Nat.eqb n 12
   || Nat.eqb n 13 || Nat.eqb n 32 || Nat.eqb n 160)%bool.

Fixpoint trimStart (s : string) : string :=
  match s with
  | String c r => if isWhiteSpace c then trimStart r else s
  | EmptyString => EmptyString
  end.

Fixpoint trimEnd (s : string) : string :=
  match s with
  | EmptyString => EmptyString
  | String c r =>
      match trimEnd r with
      | EmptyString => if isWhiteSpace c then EmptyString else String c EmptyString
      | r' => String c r'
      end
  end.

(** [s.trim()] *)
Definition trim (s : string) : string := trimEnd (trimStart s).

(** Truthiness of a string: only [''] is falsy. *)
Definition truthy (s : string) : bool := negb (String.eqb s "").

(** [a || b] on strings. *)
Definition or_else (a b : string) : string := if truthy a then a else b.

Definition digitValue (c : ascii) : option Z :=
  let n := nat_of_ascii c in
  if (Nat.leb 48 n && Nat.leb n 57)%bool then Some (Z.of_nat (n - 48)) else None.

(** The longest prefix of decimal digits, read as a number; [acc] is [None]
    until a first digit has been seen. *)
Fixpoint parseDigits (s : string) (acc : option Z) : option Z :=
  match s with
  | String c r =>
      match digitValue c with
      | Some d => parseDigits r (Some (10 * default 0 acc + d)%Z)
      | None => acc
      end
  | EmptyString => acc
  end.

(** [parseInt(s, 10)]: leading white space, an optional sign, then digits;
    [None] is [NaN].  The result is the integer the digits denote, which
    is what the code gets for digits denoting at most [2^53]; beyond, the
    code gets the nearest double, and [Infinity] past the largest one. *)
Definition parseInt (s : string) : option Z :=
  match trimStart s with
  | String "-"%char r => Z.opp <$> parseDigits r None
  | String "+"%char r => parseDigits r None
  | s' => parseDigits s' None
  end.

(** [s.substring(0, n)] for [0 <= n]. *)
Fixpoint substring0 (n : nat) (s : string) : string :=
  match n, s with
  | S n', String c r => String c (substring0 n' r)
  | _, _ => EmptyString
  end.

(** String conversion of an integer-valued number, as in ["Ch. " + n] and
    in template literals: the decimal digits, which is what the code
    prints for numbers of magnitude at most [2^53] (see [Num.safe] for
    the larger ones). *)
Definition toString (n : Z) : string := pretty n.

End Js.

(** ** Data model *)

(** A manga record, as [addNewManga] builds it. *)
Record Manga := mkManga {
  image : string;
  title : string;
  link : string;
  isImageWorking : bool;
  readChapters : Z;
  favorite : bool;
  dayAdded : string;
  lastRead : string
}.

(** The object [getMangaFormData] returns. *)
Record MangaData := mkMangaData {
  data_image : string;
  data_title : string;
  data_link : string;
  data_isImageWorking : bool;
  data_readChapters : Z;
  data_favorite : bool
}.

(** The values of the form's fields, before [trim]. *)
Record FormFields := mkFormFields {
  field_image : string;
  field_title : string;
  field_link : string;
  field_readChapters : string;
  field_favorite : bool
}.

(** One tab of the answer of [chrome.tabs.query]. [tab_title] is [""] when the
    tab has no (or an empty) title; [tab_url] is [None] when the tab has no
    (or an empty) url, and otherwise holds [new URL(url).href]. *)
Record ChromeTab := mkChromeTab {
  tab_title : string;
  tab_url : option string
}.

(** What [getCurrentTabInfo] resolves to. *)
Record TabInfo := mkTabInfo {
  info_title : string;
  info_url : string
}.

(** References to manga objects. *)
Definition loc := nat.

(** Calls to collaborators outside the modelled files, and DOM effects. *)
Inductive Event :=
| E_showModal (messageKey : string)
| E_resetFormValues
| E_hideMangaForm
| E_loadFilteredMangas
| E_saveMangas
| E_closeAllDialogs
| E_showReloadDialog (manga : loc) (newUrl : string)
| E_closeReloadDialog
| E_handleMaxChapters (n : Z)
| E_processRemainingBookmarks
| E_consoleError (msg : string)
| E_removeItemElement.

(** The state the handlers run in: the objects, the global [mangaList], and
    the calls made so far. *)
Record World := mkWorld {
  heap : gmap loc Manga;
  mangaList : list loc;
  trace : list Event
}.

Definition emit (e : Event) (w : World) : World :=
  mkWorld (heap w) (mangaList w) (trace w ++ [e]).

Definition emits (es : list Event) (w : World) : World :=
  mkWorld (heap w) (mangaList w) (trace w ++ es).

(** The records of the store, in list order. *)
Definition records (w : World) : list Manga :=
  omap (λ l, heap w !! l) (mangaList w).

(** The titles of the store, in list order. *)
Definition titles (w : World) : list string :=
  title <$> records w.

(** Every element of [mangaList] refers to an object. *)
Definition allocated (w : World) : Prop :=
  Forall (λ l, is_Some (heap w !! l)) (mangaList w).

(** The store invariant of the data model: titles pairwise distinct. *)
Definition uniqueTitles (w : World) : Prop :=
  allocated w ∧ NoDup (titles w).

(** ** The form controller *)

(** [mangaList.some(manga => manga.title === title)] *)
Definition isNameUsed (w : World) (t : string) : bool :=
  existsb (λ l, match heap w !! l with
                | Some manga => bool_decide (title manga = t)
                | None => false
                end) (mangaList w).

(** The template literal [`${title} (${counter})`]. *)
Definition suffixed (t : string) (counter : nat) : string :=
  t +:+ " (" +:+ Js.toString (Z.of_nat counter) +:+ ")".

(** The [while] loop of [generateUniqueTitle], entered with [counter] and
    [newTitle = suffixed title counter]; [None] when [fuel] iterations did not
    reach the exit. *)
Fixpoint generateUniqueTitle_loop (fuel : nat) (w : World) (t : string)
    (counter : nat) : option string :=
  let newTitle := suffixed t counter in
  if isNameUsed w newTitle then
    match fuel with
    | O => None
    | S fuel' => generateUniqueTitle_loop fuel' w t (S counter)
    end
  else Some newTitle.

(** [generateUniqueTitle(title)]. The loop is given as many iterations as the
    store has records; [generateUniqueTitle_loop_total] shows that it exits
    within them. *)
Definition generateUniqueTitle (w : World) (t : string) : option string :=
  if negb (isNameUsed w t) then Some t
  else generateUniqueTitle_loop (length (mangaList w)) w t 1.

(** [getCurrentTabInfo()], from the answer of [chrome.tabs.query]. *)
Definition getCurrentTabInfo (tabs : list ChromeTab) : TabInfo :=
  match tabs with
  | tab0 :: _ =>
      mkTabInfo (Js.or_else (tab_title tab0) "Error")
                (match tab_url tab0 with Some href => href | None => "Error" end)
  | [] => mkTabInfo "" ""
  end.

(** [getMangaFormData()] *)
Definition getMangaFormData (w : World) (form : FormFields)
    (tabs : list ChromeTab) : option MangaData :=
  let linkInput := Js.trim (field_link form) in
  let titleInput := Js.trim (field_title form) in
  let readChaptersInput := Js.trim (field_readChapters form) in
  let tab := getCurrentTabInfo tabs in
  let link := Js.or_else linkInput (info_url tab) in
  t ← (if Js.truthy titleInput then Some titleInput
       else generateUniqueTitle w (info_title tab));
  let readChapters := Js.parseInt readChaptersInput in
  let validReadChapters :=
    match readChapters with
    | None => 0%Z
    | Some n => if (n <? 0)%Z then 0%Z else n
    end in
  Some (mkMangaData (Js.trim (field_image form)) t link true
                    validReadChapters (field_favorite form)).

(** [validateMangaData(mangaData, originalTitle = '')]: the error key, or
    [None] for [null]. *)
Definition validateMangaData (w : World) (mangaData : MangaData)
    (originalTitle : string) : option string :=
  if negb (Js.truthy (data_title mangaData)) then Some "modal-title-required"
  else if (negb (bool_decide (data_title mangaData = originalTitle))
           && isNameUsed w (data_title mangaData))%bool
       then Some "modal-unique-title-required"
  else None.

(** [new Date().toLocaleString()] is an input of the handlers, [now]. *)

(** Allocation of an object literal: a reference not yet in use. *)
Definition newLoc (w : World) : loc := fresh (dom (heap w)).

(** [addNewManga()] *)
Definition addNewManga (w : World) (form : FormFields) (tabs : list ChromeTab)
    (now : string) : option World :=
  mangaData ← getMangaFormData w form tabs;
  match validateMangaData w mangaData "" with
  | Some validationError => Some (emit (E_showModal validationError) w)
  | None =>
      let date := now in
      let newManga :=
        mkManga (data_image mangaData) (data_title mangaData)
                (data_link mangaData) (data_isImageWorking mangaData)
                (data_readChapters mangaData) (data_favorite mangaData)
                date date in
      let l := newLoc w in
      Some (emits [E_resetFormValues; E_hideMangaForm;
                   E_loadFilteredMangas; E_saveMangas]
              (mkWorld (<[l := newManga]> (heap w)) (mangaList w ++ [l]) (trace w)))
  end.

(** [hasChanges(manga, mangaData)]: despite its name, [true] when the five
    compared fields are all equal. *)
Definition hasChanges (manga : Manga) (mangaData : MangaData) : bool :=
  (bool_decide (image manga = data_image mangaData)
   && bool_decide (link manga = data_link mangaData)
   && bool_decide (readChapters manga = data_readChapters mangaData)
   && bool_decide (title manga = data_title mangaData)
   && bool_decide (favorite manga = data_favorite mangaData))%bool.

(** [Object.assign(manga, mangaData, { lastRead })] *)
Definition assignData (manga : Manga) (mangaData : MangaData) (lastRead' : string)
    : Manga :=
  mkManga (data_image mangaData) (data_title mangaData) (data_link mangaData)
          (data_isImageWorking mangaData) (data_readChapters mangaData)
          (data_favorite mangaData) (dayAdded manga) lastRead'.

(** [Object.assign(manga, {link: url})] *)
Definition assignLink (manga : Manga) (url : string) : Manga :=
  mkManga (image manga) (title manga) url (isImageWorking manga)
          (readChapters manga) (favorite manga) (dayAdded manga) (lastRead manga).

(** Writing to the object behind a reference. *)
Definition store (l : loc) (m : Manga) (w : World) : World :=
  mkWorld (<[l := m]> (heap w)) (mangaList w) (trace w).

(** [handleLinkReload(manga)], up to the point where the dialog is shown and
    its buttons are bound; [tabs] is the answer to its own tab query.  The
    listeners it binds are kept by [promptLinkReload]. *)
Definition handleLinkReload (w : World) (manga : loc) (tabs : list ChromeTab)
    : option World :=
  m ← heap w !! manga;
  let newUrl := getCurrentTabInfo tabs in
  if bool_decide (link m = info_url newUrl)
  then Some (emit E_closeAllDialogs w)
  else Some (emit (E_showReloadDialog manga (info_url newUrl)) w).

(** One click listener that [handleLinkReload] binds to the button
    [confirmReload].  Every prompt binds one more and a click runs all that
    are bound: see [clickConfirmReload]. *)
Definition confirmReload (w : World) (manga : loc) (newUrl : string)
    : option World :=
  m ← heap w !! manga;
  if bool_decide (link m = newUrl) then Some w
  else Some (emits [E_saveMangas; E_closeReloadDialog; E_closeAllDialogs]
               (store manga (assignLink m newUrl) w)).

(** [updateMangaDetails(manga)]; [tabs] answers the tab query of
    [getMangaFormData], [tabsReload] the one of [handleLinkReload]. *)
Definition updateMangaDetails (w : World) (manga : loc) (form : FormFields)
    (tabs : list ChromeTab) (now : string) (tabsReload : list ChromeTab)
    : option World :=
  mangaData ← getMangaFormData w form tabs;
  m ← heap w !! manga;
  match validateMangaData w mangaData (title m) with
  | Some validationError => Some (emit (E_showModal validationError) w)
  | None =>
      if hasChanges m mangaData then handleLinkReload w manga tabsReload
      else Some (emits [E_resetFormValues; E_hideMangaForm;
                        E_loadFilteredMangas; E_saveMangas]
                   (store manga (assignData m mangaData now) w))
  end.

(** [form.dataset] of the chapter form: both entries absent ([None]) unless
    [handleMangaEdition] set them. *)
Record Dataset := mkDataset {
  editMode : option string;
  mangaTitle : option string
}.

(** [mangaList.find(m => m.title === mangaTitle)] *)
Definition findByTitle (w : World) (t : string) : option loc :=
  find (λ l, match heap w !! l with
             | Some manga => bool_decide (title manga = t)
             | None => false
             end) (mangaList w).

(** [handleFormSubmission(event)] *)
Definition handleFormSubmission (w : World) (dataset : Dataset)
    (form : FormFields) (tabs : list ChromeTab) (now : string)
    (tabsReload : list ChromeTab) : option World :=
  let isEditMode := match editMode dataset with
                    | Some s => Js.truthy s
                    | None => false
                    end in
  let mangaTitle' := default "" (mangaTitle dataset) in
  if (isEditMode && Js.truthy mangaTitle')%bool then
    match findByTitle w mangaTitle' with
    | Some manga => updateMangaDetails w manga form tabs now tabsReload
    | None => Some (emit (E_consoleError "Manga not found for editing") w)
    end
  else
    w' ← addNewManga w form tabs now;
    Some (emit E_processRemainingBookmarks w').

(** [deleteManga(manga, event)]: the list is replaced by the filtered one. *)
Definition deleteManga (w : World) (manga : loc) : World :=
  emits [E_removeItemElement; E_saveMangas]
    (mkWorld (heap w)
             (filter (λ m, m ≠ manga) (mangaList w))
             (trace w)).

(** ** The rendered list item *)

(** What [createMangaElement] puts into a [.manga-item] element: the values
    interpolated into its template. *)
Record MangaItem := mkMangaItem {
  dataset_title : string;
  fav_hover_class : string;
  fav_fill_class : string;
  img_src : string;
  img_alt : string;
  link_href : string;
  title_tooltip : string;
  title_text : string;
  date_text : string;
  chapter_count_text : string
}.

(** [handleImageTheme()]; [dark] tells whether the document has class
    [dark]. *)
Definition handleImageTheme (dark : bool) : string :=
  if dark then "../public/fallback-images/dark-mode-fallback.svg"
  else "../public/fallback-images/light-mode-fallback.svg".

(** [createMangaElement(manga)]: the strings the template literal
    interpolates.  The code assigns the template through [innerHTML], so
    what the element shows is what the HTML parser makes of them; see
    [shownTitle]. *)
Definition createMangaElement (dark : bool) (manga : Manga) : MangaItem :=
  mkMangaItem
    (title manga)
    (if favorite manga then "hover:fill-light-red" else "hover:fill-yellow-400")
    (if favorite manga then "fill-yellow-400" else "fill-transparent")
    (if isImageWorking manga then image manga else handleImageTheme dark)
    (title manga)
    (link manga)
    (title manga)
    (if (String.length (title manga) <? 20)%nat then title manga
     else Js.substring0 (22 - 3) (title manga) +:+ "...")
    (lastRead manga)
    ("Ch. " +:+ Js.toString (readChapters manga)).

Module Html.
(** The characters the HTML parser gives a meaning to, in text or in a
    double-quoted attribute value: [<] opens a tag, [&] a character
    reference, the double quote closes the attribute; NUL is dropped and a
    carriage return becomes a line feed. *)
Definition special (c : ascii) : bool :=
  match nat_of_ascii c with
  | 0 | 13 | 34 | 38 | 60 => true
  | _ => false
  end.

(** A string the parser takes over as it is. *)
Fixpoint plain (s : string) : bool :=
  match s with
  | EmptyString => true
  | String c r => negb (special c) && plain r
  end.
End Html.

(** The strings of a record that [createMangaElement] interpolates are all
    plain: then the markup of the template is parsed as it is written. *)
Definition plainTemplate (manga : Manga) : bool :=
  Html.plain (title manga) && Html.plain (image manga)
  && Html.plain (link manga) && Html.plain (lastRead manga).

(** The text the title paragraph of [createMangaElement(manga)] shows: the
    string interpolated there (the line break and the indentation the
    template has around it are not displayed).  [None] stands for a record
    with a special character in an interpolated string: what the parser
    makes of the markup is not modelled. *)
Definition shownTitle (dark : bool) (manga : Manga) : option string :=
  if plainTemplate manga then Some (title_text (createMangaElement dark manga))
  else None.

(** ** Chapter counter *)

Module Num.
(** A count is a JavaScript number, an IEEE double, and is held here by
    the integer it denotes.  Every integer of magnitude at most [2^53] is
    a double, prints in plain decimal digits and is read back by
    [parseInt] as itself; on these [Js.toString] and [Js.parseInt] are the
    code's conversions.  Larger numbers print in other forms (with
    rounded digits, and with an exponent from [1e21] on) and [Infinity]
    is no integer at all: the properties of the chapter counter whose
    truth depends on a conversion carry the bound [safe] on the numbers
    they convert. *)
Definition limit : Z := 2 ^ 53.

Definition safe (n : Z) : Prop := (- limit ≤ n ≤ limit)%Z.

(** The double nearest to the integer [z], ties going to the even
    significand: what the result of an addition or a subtraction of two
    doubles is rounded to.  The significand holds 53 bits; [e] is the
    number of low bits of [z] that do not fit. *)
Definition round (z : Z) : Z :=
  let a := Z.abs z in
  let e := (Z.log2 a - 52)%Z in
  if (e <=? 0)%Z then z
  else
    let q := Z.shiftr a e in
    let r := (a - Z.shiftl q e)%Z in
    let half := Z.shiftl 1 (e - 1) in
    let q' := if (half <? r)%Z || ((r =? half)%Z && Z.odd q)
              then (q + 1)%Z else q in
    (Z.sgn z * Z.shiftl q' e)%Z.

(** [a + b] and [a - b] on numbers. *)
Definition add (a b : Z) : Z := round (a + b).

Definition sub (a b : Z) : Z := round (a - b).

(** [parseInt(n, 10)] of a number: [n] is converted to a string first. *)
Definition parseInt (n : Z) : option Z := Js.parseInt (Js.toString n).

(** [x || d] on numbers: [NaN] and [0] are falsy. *)
Definition or_else (x : option Z) (d : Z) : Z :=
  match x with
  | Some n => if (n =? 0)%Z then d else n
  | None => d
  end.
End Num.

(** How a handler that can throw ends; the state is the one reached when it
    returned or threw. *)
Inductive Outcome :=
| Returned (w : World) (item : MangaItem)
| Threw (message : string) (w : World) (item : MangaItem).

Definition setReadChapters (n : Z) (manga : Manga) : Manga :=
  mkManga (image manga) (title manga) (link manga) (isImageWorking manga)
          n (favorite manga) (dayAdded manga) (lastRead manga).

Definition setLastRead (s : string) (manga : Manga) : Manga :=
  mkManga (image manga) (title manga) (link manga) (isImageWorking manga)
          (readChapters manga) (favorite manga) (dayAdded manga) s.

Definition setDateText (s : string) (item : MangaItem) : MangaItem :=
  mkMangaItem (dataset_title item) (fav_hover_class item) (fav_fill_class item)
              (img_src item) (img_alt item) (link_href item) (title_tooltip item)
              (title_text item) s (chapter_count_text item).

Definition setChapterCountText (s : string) (item : MangaItem) : MangaItem :=
  mkMangaItem (dataset_title item) (fav_hover_class item) (fav_fill_class item)
              (img_src item) (img_alt item) (link_href item) (title_tooltip item)
              (title_text item) (date_text item) s.

(** The statements of [handleChapterUpdate] after its [if]: [m] is the record
    as the branch left it. *)
Definition finishChapterUpdate (w : World) (manga : loc) (m : Manga)
    (item : MangaItem) (now sortOption : string) : Outcome :=
  let m := setLastRead now m in
  let item := setDateText (lastRead m) item in
  let item := setChapterCountText ("Ch. " +:+ Js.toString (readChapters m)) item in
  let w := emit E_saveMangas (store manga m w) in
  let w := if bool_decide (sortOption = "chaptersRead")
           then emit E_loadFilteredMangas w else w in
  Returned w item.

(** [handleChapterUpdate(manga, operation, amount, event)]. [item] is the
    [.manga-item] element around [event.target], [maxChapters] the value
    [getMaxChapters()] returns, [sortOption] the value of the sort selector.
    [None] only for a reference that is no object. *)
Definition handleChapterUpdate (w : World) (manga : loc) (operation : string)
    (amount : Z) (item : MangaItem) (maxChapters : Z) (now sortOption : string)
    : option Outcome :=
  m ← heap w !! manga;
  let amount := Num.or_else (Num.parseInt amount) 1 in
  if bool_decide (operation = "+") then
    let w := if (Num.add (readChapters m) amount >? maxChapters)%Z
             then emit (E_handleMaxChapters (Num.add (readChapters m) amount)) w
             else w in
    let m := setReadChapters
               (Num.add (Num.or_else (Num.parseInt (readChapters m)) 0) amount)
               m in
    Some (finishChapterUpdate w manga m item now sortOption)
  else if bool_decide (operation = "-") then
    let m := if (readChapters m <=? 0)%Z then setReadChapters 0 m
             else setReadChapters
                    (Num.sub (Num.or_else (Num.parseInt (readChapters m)) 0)
                       amount) m in
    Some (finishChapterUpdate w manga m item now sortOption)
  else Some (Threw "Invalid operation. Use '+' or '-'." w item).

(** ** Batched rendering *)

Inductive RenderEvent :=
| R_clear
| R_append (fragment : list MangaItem)
| R_handleBlur
| R_requestAnimationFrame.

(** The state of one [loadMangas] call: its [currentIndex], the children it
    has given the container since it cleared it, the DOM calls it made so
    far, and whether its [loadBatch] is scheduled for the next animation
    frame.  The element [mangaListContainer] is shared by all calls: its
    children are those of [container] as long as no other call writes to it
    in between. *)
Record Loader := mkLoader {
  currentIndex : Z;
  container : list MangaItem;
  log : list RenderEvent;
  scheduled : bool
}.

(** [inputList[i]]; [None] is [undefined]. *)
Definition nth_js {A} (l : list A) (i : Z) : option A :=
  if (i <? 0)%Z then None else l !! Z.to_nat i.

(** The [for] loop of [loadBatch], with [n] iterations left, at index [i].
    [None]: [createMangaElement(undefined)] throws. *)
Fixpoint loadBatch_for (dark : bool) (inputList : list Manga) (n : nat) (i : Z)
    (fragment : list MangaItem) : option (list MangaItem) :=
  match n with
  | O => Some fragment
  | S n' =>
      manga ← nth_js inputList i;
      loadBatch_for dark inputList n' (i + 1)%Z
                    (fragment ++ [createMangaElement dark manga])
  end.

(** One call of [loadBatch]. *)
Definition loadBatch (dark : bool) (inputList : list Manga) (batchSize : Z)
    (st : Loader) : option Loader :=
  let endIndex := Z.min (currentIndex st + batchSize)
                        (Z.of_nat (length inputList)) in
  fragment ← loadBatch_for dark inputList
               (Z.to_nat (endIndex - currentIndex st)) (currentIndex st) [];
  let currentIndex' := (currentIndex st + batchSize)%Z in
  let more := (currentIndex' <? Z.of_nat (length inputList))%Z in
  Some (mkLoader currentIndex' (container st ++ fragment)
          (log st ++ R_append fragment ::
             (if more then [R_requestAnimationFrame] else []))
          more).

(** The synchronous part of [loadMangas(inputList, batchSize)]. *)
Definition loadMangas (dark : bool) (inputList : list Manga) (batchSize : Z)
    : option Loader :=
  st ← loadBatch dark inputList batchSize (mkLoader 0 [] [R_clear] false);
  Some (mkLoader (currentIndex st) (container st) (log st ++ [R_handleBlur])
                 (scheduled st)).

(** [loadMangas(inputList)]: [batchSize] defaults to 3. *)
Definition loadMangas_default (dark : bool) (inputList : list Manga) :=
  loadMangas dark inputList 3.

(** One animation frame, for one call: its scheduled [loadBatch], if any,
    runs.  [inputList] is the list as the call was given it: the properties
    are about a list that is not modified while the batches load. *)
Definition animationFrame (dark : bool) (inputList : list Manga) (batchSize : Z)
    (st : Loader) : option Loader :=
  if scheduled st then loadBatch dark inputList batchSize st else Some st.

(** [loadMangas] followed by [frames] animation frames. *)
Fixpoint framesFrom (dark : bool) (inputList : list Manga) (batchSize : Z)
    (frames : nat) (st : Loader) : option Loader :=
  match frames with
  | O => Some st
  | S k =>
      st' ← animationFrame dark inputList batchSize st;
      framesFrom dark inputList batchSize k st'
  end.

Definition render (dark : bool) (inputList : list Manga) (batchSize : Z)
    (frames : nat) : option Loader :=
  st ← loadMangas dark inputList batchSize;
  framesFrom dark inputList batchSize frames st.

(** The fragments appended to the container, in order. *)
Definition appends (evs : list RenderEvent) : list (list MangaItem) :=
  omap (λ e, match e with R_append f => Some f | _ => None end) evs.

(** ** Sequences of store operations *)

Inductive Op :=
| OpAdd (form : FormFields) (tabs : list ChromeTab) (now : string)
| OpSubmit (dataset : Dataset) (form : FormFields) (tabs : list ChromeTab)
           (now : string) (tabsReload : list ChromeTab)
| OpEdit (manga : loc) (form : FormFields) (tabs : list ChromeTab)
         (now : string) (tabsReload : list ChromeTab)
| OpDelete (manga : loc).

Definition step (w : World) (op : Op) : option World :=
  match op with
  | OpAdd form tabs now => addNewManga w form tabs now
  | OpSubmit dataset form tabs now tabsReload =>
      handleFormSubmission w dataset form tabs now tabsReload
  | OpEdit manga form tabs now tabsReload =>
      updateMangaDetails w manga form tabs now tabsReload
  | OpDelete manga => Some (deleteManga w manga)
  end.

Fixpoint run (w : World) (ops : list Op) : option World :=
  match ops with
  | [] => Some w
  | op :: ops' => w' ← step w op; run w' ops'
  end.

(** The references an operation names are objects. *)
Definition op_scoped (w : World) (op : Op) : Prop :=
  match op with
  | OpEdit manga _ _ _ _ => is_Some (heap w !! manga)
  | _ => True
  end.

(** Objects are never freed: a reference stays valid across operations. *)
Definition heap_grows (w w' : World) : Prop :=
  ∀ l, is_Some (heap w !! l) → is_Some (heap w' !! l).

(** ** Statements used by the properties below *)

(** The submitted data equals the stored record in the five fields
    [hasChanges] compares. *)
Definition unchanged (m : Manga) (d : MangaData) : Prop :=
  image m = data_image d ∧ link m = data_link d
  ∧ readChapters m = data_readChapters d ∧ title m = data_title d
  ∧ favorite m = data_favorite d.

(** The submitted data equals the stored record, except possibly the link. *)
Definition unchangedExceptLink (m : Manga) (d : MangaData) : Prop :=
  image m = data_image d ∧ readChapters m = data_readChapters d
  ∧ title m = data_title d ∧ favorite m = data_favorite d.

(** The link-reload dialog is shown for [manga], offering [url]; nothing is
    saved. *)
Definition promptsReload (w : World) (manga : loc) (url : string) : World :=
  emit (E_showReloadDialog manga url) w.

(** The submitted data is merged into the record, [lastRead] refreshed, the
    form closed, the list re-rendered and saved. *)
Definition savesEdit (w : World) (manga : loc) (m : Manga) (d : MangaData)
    (now : string) : World :=
  emits [E_resetFormValues; E_hideMangaForm; E_loadFilteredMangas; E_saveMangas]
    (store manga (assignData m d now) w).

(** The edit-mode submission rule with the reload prompt taken whenever the
    data is unchanged except possibly the link and the tab offers another
    link. *)
Definition editRule_exceptLink (w : World) (manga : loc) (form : FormFields)
    (tabs : list ChromeTab) (now : string) : Prop :=
  ∀ m d,
    heap w !! manga = Some m →
    getMangaFormData w form tabs = Some d →
    validateMangaData w d (title m) = None →
    let url := info_url (getCurrentTabInfo tabs) in
    (unchangedExceptLink m d ∧ url ≠ link m →
       updateMangaDetails w manga form tabs now tabs
       = Some (promptsReload w manga url))
    ∧ (¬ (unchangedExceptLink m d ∧ url ≠ link m) →
       updateMangaDetails w manga form tabs now tabs
       = Some (savesEdit w manga m d now)).

(** The list items of [inputList], in list order. *)
Definition rendered (dark : bool) (inputList : list Manga) : list MangaItem :=
  createMangaElement dark <$> inputList.

(** The [j]-th batch of [b] records. *)
Definition batch (dark : bool) (inputList : list Manga) (b j : nat)
    : list MangaItem :=
  rendered dark (take b (drop (j * b) inputList)).

(** [st] is a finished rendering of [inputList] in batches of [batchSize]:
    the container was cleared first, nothing is scheduled any more, the
    append events hold the records once each in list order, every event but
    the last has [batchSize] records and the last one the remainder. *)
Definition batched (dark : bool) (inputList : list Manga) (batchSize : Z)
    (st : Loader) : Prop :=
  let events := appends (log st) in
  scheduled st = false
  ∧ head (log st) = Some R_clear
  ∧ concat events = rendered dark inputList
  ∧ container st = rendered dark inputList
  ∧ (∀ i f, events !! i = Some f → (S i < length events)%nat →
            Z.of_nat (length f) = batchSize)
  ∧ (∀ f, last events = Some f →
          Z.of_nat (length f)
          = (Z.of_nat (length inputList)
             - batchSize * (Z.of_nat (length events) - 1))%Z
          ∧ (Z.of_nat (length f) <= batchSize)%Z
          ∧ (inputList ≠ [] → f ≠ [])).

(** [loadMangas] and the animation frames after it reach a finished
    rendering, and later frames change nothing. *)
Definition rendersInBatches (dark : bool) (inputList : list Manga)
    (batchSize : Z) : Prop :=
  ∃ frames st,
    render dark inputList batchSize frames = Some st
    ∧ (∀ more, render dark inputList batchSize (frames + more) = Some st)
    ∧ batched dark inputList batchSize st.

(** The state of the loader after [j] batches of [b] records. *)
Definition afterBatches (dark : bool) (inputList : list Manga) (b j : nat)
    (st : Loader) : Prop :=
  currentIndex st = Z.of_nat (j * b)
  ∧ container st = rendered dark (take (j * b) inputList)
  ∧ appends (log st) = batch dark inputList b <$> seq 0 j
  ∧ head (log st) = Some R_clear
  ∧ (scheduled st = true ↔ (j * b < length inputList)%nat)
  ∧ (1 ≤ j)%nat
  ∧ (j = 1%nat ∨ ((j - 1) * b < length inputList)%nat).


(** After [handleChapterUpdate(record, "+", 1)] the record's count is the
    previous count plus 1, its [lastRead] is the current time and the chapter
    label reads ["Ch. "] followed by the new count. *)
Definition incrementsByOne (w : World) (manga : loc) (item : MangaItem)
    (maxChapters : Z) (now sortOption : string) : Prop :=
  ∀ m, heap w !! manga = Some m →
  ∃ w' item' m',
    handleChapterUpdate w manga "+" 1 item maxChapters now sortOption
    = Some (Returned w' item')
    ∧ heap w' !! manga = Some m'
    ∧ readChapters m' = (readChapters m + 1)%Z
    ∧ lastRead m' = now
    ∧ chapter_count_text item' = "Ch. " +:+ Js.toString (readChapters m + 1).

(** ** Sample data *)

Definition manga_A : Manga := mkManga "" "A" "x" true 2 false "day 1" "day 1".
Definition manga_A5 : Manga := mkManga "" "A" "x" true 5 false "day 1" "day 1".
Definition manga_B : Manga := mkManga "" "B" "y" true 0 true "day 2" "day 2".
Definition manga_A' : Manga := mkManga "img" "A" "z" true 7 false "day 3" "day 3".
Definition manga_20 : Manga :=
  mkManga "" "12345678901234567890" "x" true 0 false "day 1" "day 1".

(** [store = [{title:"A", readChapters:2}]] *)
Definition store_A : World := mkWorld {[ 0 := manga_A ]} [0] [].
Definition store_A5 : World := mkWorld {[ 0 := manga_A5 ]} [0] [].
Definition store_AB : World :=
  mkWorld (<[1 := manga_B]> {[ 0 := manga_A ]}) [0; 1] [].
(** Two different objects with the same title. *)
Definition store_AA : World :=
  mkWorld (<[1 := manga_A']> {[ 0 := manga_A ]}) [0; 1] [].

Definition form_A_x : FormFields := mkFormFields "" "A" "x" "" false.
Definition form_A_y : FormFields := mkFormFields "" "A" "y" "2" false.
Definition form_same : FormFields := mkFormFields "" "A" "x" "2" false.
Definition form_empty : FormFields := mkFormFields "" "  " "" "" false.
Definition form_C : FormFields := mkFormFields "" " C " "" "3" false.
Definition tabs_A : list ChromeTab := [mkChromeTab "A" (Some "https://a/")].
Definition tabs_z : list ChromeTab := [mkChromeTab "T" (Some "z")].
Definition tabs_x : list ChromeTab := [mkChromeTab "T" (Some "x")].
Definition item_A : MangaItem := createMangaElement false manga_A.
Definition item_A5 : MangaItem := createMangaElement false manga_A5.
(** A record whose count is [2^53], as the form stores it when
    [9007199254740992] is typed into the chapter field. *)
Definition manga_limit : Manga :=
  mkManga "" "A" "x" true 9007199254740992 false "day 1" "day 1".
Definition store_limit : World := mkWorld {[ 0 := manga_limit ]} [0] [].
Definition item_limit : MangaItem := createMangaElement false manga_limit.
Definition seven : list Manga :=
  [manga_A; manga_B; manga_A'; manga_20; manga_A5; manga_B; manga_A].

(** A submission whose title is taken is turned down: by [addNewManga] for
    any stored title, by [updateMangaDetails] for the title of a record other
    than the edited one. *)
Definition rejectsTakenTitles (w : World) : Prop :=
  (∀ form tabs now d,
     getMangaFormData w form tabs = Some d →
     data_title d ∈ titles w →
     addNewManga w form tabs now
     = Some (emit (E_showModal "modal-unique-title-required") w))
  ∧ (∀ manga other m m' form tabs now tabsReload d,
       manga ∈ mangaList w → other ∈ mangaList w → other ≠ manga →
       heap w !! manga = Some m → heap w !! other = Some m' →
       getMangaFormData w form tabs = Some d →
       data_title d = title m' →
       updateMangaDetails w manga form tabs now tabsReload
       = Some (emit (E_showModal "modal-unique-title-required") w)).

Definition manga_A1 : Manga := mkManga "" "A (1)" "x" true 0 false "day 2" "day 2".
Definition store_A_A1 : World :=
  mkWorld (<[1 := manga_A1]> {[ 0 := manga_A ]}) [0; 1] [].

Definition sample_ops : list Op :=
  [ OpAdd (mkFormFields "" "" "" "4" true) [mkChromeTab "A" (Some "https://a/")] "day 2";
    OpAdd (mkFormFields "" "A" "" "" false) [] "day 3";
    OpSubmit (mkDataset (Some "true") (Some "A (1)"))
             (mkFormFields "" "B" "" "5" true) [] "day 4" [];
    OpEdit 0 (mkFormFields "" "B" "" "" false) [] "day 5" [];
    OpDelete 0;
    OpSubmit (mkDataset None None) (mkFormFields "" "A" "" "" false) [] "day 6" [] ].

(** ** Opening the form for an edit *)

(** [fillMangaForm(manga)]: the values written into the fields; the chapter
    count is converted to a string by the assignment to [.value]. *)
Definition fillMangaForm (manga : Manga) : FormFields :=
  mkFormFields (Js.or_else (image manga) "")
               (Js.or_else (title manga) "")
               (Js.or_else (link manga) "")
               (Js.toString (Num.or_else (Some (readChapters manga)) 0))
               (favorite manga || false).

(** The chapter form: its fields, its [dataset], and whether [showMangaForm]
    was called on it. *)
Record ChapterForm := mkChapterForm {
  form_fields : FormFields;
  form_dataset : Dataset;
  form_shown : bool
}.

(** [handleMangaEdition(manga)] *)
Definition handleMangaEdition (w : World) (manga : loc) : option ChapterForm :=
  m ← heap w !! manga;
  Some (mkChapterForm (fillMangaForm m)
                      (mkDataset (Some "true") (Some (title m)))
                      true).

(** A string without white space characters. *)
Fixpoint noWhiteSpace (s : string) : bool :=
  match s with
  | EmptyString => true
  | String c r => negb (Js.isWhiteSpace c) && noWhiteSpace r
  end.

(** ** The favorite toggle *)

Definition setFavorite (b : bool) (manga : Manga) : Manga :=
  mkManga (image manga) (title manga) (link manga) (isImageWorking manga)
          (readChapters manga) b (dayAdded manga) (lastRead manga).

Definition setIsImageWorking (b : bool) (manga : Manga) : Manga :=
  mkManga (image manga) (title manga) (link manga) b
          (readChapters manga) (favorite manga) (dayAdded manga) (lastRead manga).

(** [classList.add(c)] and [classList.remove(c)] on the tokens of an
    element. *)
Definition classList_add (c : string) (classes : list string) : list string :=
  if bool_decide (c ∈ classes) then classes else classes ++ [c].

Definition classList_remove (c : string) (classes : list string) : list string :=
  filter (λ x, x ≠ c) classes.

(** [handleFavoriteToggle(manga, event)]; [classes] is the class list of
    [event.target]. *)
Definition handleFavoriteToggle (w : World) (manga : loc) (classes : list string)
    : option (World * list string) :=
  m ← heap w !! manga;
  let m := setFavorite (negb (favorite m)) m in
  let classes :=
    if favorite m then
      classList_remove "hover:fill-yellow-400"
        (classList_add "hover:fill-light-red"
           (classList_add "fill-yellow-400"
              (classList_remove "fill-transparent" classes)))
    else
      classList_add "hover:fill-yellow-400"
        (classList_remove "hover:fill-light-red"
           (classList_add "fill-transparent"
              (classList_remove "fill-yellow-400" classes))) in
  Some (emit E_saveMangas (store manga m w), classes).

(** ** The listeners of the list container *)

(** How a listener ends. *)
Inductive Completion (A : Type) :=
| Done (a : A)
| ThrowsTypeError.
Arguments Done {A} a.
Arguments ThrowsTypeError {A}.

(** [getClosestManga(event)]; [itemTitle] is [dataset.title] of the
    [.manga-item] around [event.target], [None] when there is no such
    element. *)
Definition getClosestManga (w : World) (itemTitle : option string) : option loc :=
  t ← itemTitle; findByTitle w t.

(** The [error] listener; [src] is the [src] of [event.target]. With an [IMG]
    target and no record for the item, [manga.isImageWorking] throws. *)
Definition imageErrorListener (w : World) (itemTitle : option string)
    (tagName : string) (src : string) (dark : bool)
    : option (Completion (World * string)) :=
  let manga := getClosestManga w itemTitle in
  if bool_decide (tagName = "IMG") then
    match manga with
    | None => Some ThrowsTypeError
    | Some l =>
        m ← heap w !! l;
        if isImageWorking m
        then Some (Done (store l (setIsImageWorking false m) w,
                         handleImageTheme dark))
        else Some (Done (w, src))
    end
  else Some (Done (w, src)).

(** The entries of [actions]. *)
Inductive Handler :=
| H_fav
| H_delete
| H_edit
| H_addCap
| H_removeCap.

Definition actions (id : string) : option Handler :=
  if bool_decide (id = "fav") then Some H_fav
  else if bool_decide (id = "delete") then Some H_delete
  else if bool_decide (id = "edit") then Some H_edit
  else if bool_decide (id = "addCap") then Some H_addCap
  else if bool_decide (id = "removeCap") then Some H_removeCap
  else None.

(** The properties [actions] inherits from [Object.prototype]; [actions[id]]
    is truthy for them too. *)
Definition objectPrototypeMembers : list string :=
  [ "constructor"; "__defineGetter__"; "__defineSetter__"; "hasOwnProperty";
    "__lookupGetter__"; "__lookupSetter__"; "isPrototypeOf";
    "propertyIsEnumerable"; "toString"; "valueOf"; "__proto__";
    "toLocaleString" ].

(** What the [click] listener reads from [event.target]. *)
Record ClickTarget := mkClickTarget {
  target_item : option string;
  target_tagName : string;
  target_id : string;
  target_svg_id : option string
}.

(** What the [click] listener calls: nothing, an entry of [actions] on the
    resolved record, or an inherited member. *)
Inductive Dispatch :=
| NoCall
| Call (h : Handler) (manga : loc)
| CallInherited (member : string) (manga : loc).

(** The [click] listener of the list container. [target_svg_id] is the id of
    [target.closest('svg')], [None] when there is none. *)
Definition clickListener (w : World) (t : ClickTarget) : Dispatch :=
  match getClosestManga w (target_item t) with
  | None => NoCall
  | Some manga =>
      let id :=
        if (bool_decide (target_tagName t = "path")
            || bool_decide (target_tagName t = "polygon"))%bool
        then default (target_id t) (target_svg_id t)
        else target_id t in
      if Js.truthy id then
        match actions id with
        | Some h => Call h manga
        | None => if bool_decide (id ∈ objectPrototypeMembers)
                  then CallInherited id manga else NoCall
        end
      else NoCall
  end.

(** The operation and amount [actions] passes to [handleChapterUpdate]. *)
Definition chapterArguments (h : Handler) : option (string * Z) :=
  match h with
  | H_addCap => Some ("+", 1%Z)
  | H_removeCap => Some ("-", 1%Z)
  | _ => None
  end.

(** ** The delete confirmation dialog *)

(** Identity of a rendered [.manga-item] element. *)
Definition elem := nat.

(** The dialog: whether it is displayed, and the listeners bound to its three
    buttons. A [confirm] listener holds the record and the list item of the
    click that opened the dialog; the cancel listeners all are
    [closeDialog]. *)
Record ConfirmationDialog := mkConfirmationDialog {
  confirm_displayed : bool;
  onConfirm : list (loc * elem);
  onCancelConfirm : nat;
  onCancelConfirmCross : nat
}.

(** The page: the store, the children of the list container, the dialog. *)
Record Page := mkPage {
  page_world : World;
  page_items : list elem;
  page_dialog : ConfirmationDialog
}.

(** [handleMangaDeletion(manga, event)]; [item] is the list item around
    [event.target]. *)
Definition handleMangaDeletion (p : Page) (manga : loc) (item : elem) : Page :=
  let d := page_dialog p in
  mkPage (page_world p) (page_items p)
         (mkConfirmationDialog true
            (onConfirm d ++ [(manga, item)])
            (S (onCancelConfirm d))
            (S (onCancelConfirmCross d))).

(** A click on [cancelConfirm]: its listeners run, once each. *)
Definition clickCancelConfirm (p : Page) : Page :=
  let d := page_dialog p in
  mkPage (page_world p) (page_items p)
         (mkConfirmationDialog
            (match onCancelConfirm d with O => confirm_displayed d | S _ => false end)
            (onConfirm d) 0 (onCancelConfirmCross d)).

(** A click on [cancelConfirmCross]. *)
Definition clickCancelConfirmCross (p : Page) : Page :=
  let d := page_dialog p in
  mkPage (page_world p) (page_items p)
         (mkConfirmationDialog
            (match onCancelConfirmCross d with O => confirm_displayed d | S _ => false end)
            (onConfirm d) (onCancelConfirm d) 0).

(** One [confirm] listener: [deleteManga(manga, event); closeDialog()]. When
    the list item is no longer in the container, [deleteManga] throws at
    [parentElement.removeChild], after the list was replaced and before
    [saveMangas] and [closeDialog]. *)
Definition confirmListener (st : World * list elem * bool) (l : loc * elem)
    : World * list elem * bool :=
  let '(w, items, displayed) := st in
  let '(manga, item) := l in
  if bool_decide (item ∈ items)
  then (deleteManga w manga, filter (λ e, e ≠ item) items, false)
  else (mkWorld (heap w) (filter (λ m, m ≠ manga) (mangaList w)) (trace w),
        items, displayed).

(** A click on [confirm]: its listeners run in the order they were bound, once
    each. *)
Definition clickConfirm (p : Page) : Page :=
  let d := page_dialog p in
  let '(w, items, displayed) :=
    foldl confirmListener (page_world p, page_items p, confirm_displayed d)
          (onConfirm d) in
  mkPage w items
         (mkConfirmationDialog displayed [] (onCancelConfirm d)
                               (onCancelConfirmCross d)).

(** ** The link reload dialog *)

(** The listeners bound to the three buttons of the dialog [reloadLink]. A
    [confirmReload] listener holds the record and the address of the tab at
    the time of its prompt; the cancel listeners all are [closeDialog]. *)
Record ReloadDialog := mkReloadDialog {
  onConfirmReload : list (loc * string);
  onCancelReload : nat;
  onCancelReloadCross : nat
}.

Record ReloadPage := mkReloadPage {
  reload_world : World;
  reload_dialog : ReloadDialog
}.

(** [handleLinkReload(manga)] with the listeners it binds: one more on each
    button at every prompt, each to run once. *)
Definition promptLinkReload (p : ReloadPage) (manga : loc)
    (tabs : list ChromeTab) : option ReloadPage :=
  m ← heap (reload_world p) !! manga;
  let newUrl := getCurrentTabInfo tabs in
  let d := reload_dialog p in
  if bool_decide (link m = info_url newUrl)
  then Some (mkReloadPage (emit E_closeAllDialogs (reload_world p)) d)
  else Some (mkReloadPage
               (emit (E_showReloadDialog manga (info_url newUrl)) (reload_world p))
               (mkReloadDialog (onConfirmReload d ++ [(manga, info_url newUrl)])
                               (S (onCancelReload d))
                               (S (onCancelReloadCross d)))).

(** A click on [cancelReload]: its listeners run, once each; those of the
    other two buttons stay bound. *)
Definition clickCancelReload (p : ReloadPage) : ReloadPage :=
  let d := reload_dialog p in
  mkReloadPage
    (emits (replicate (onCancelReload d) E_closeReloadDialog) (reload_world p))
    (mkReloadDialog (onConfirmReload d) 0 (onCancelReloadCross d)).

(** A click on [cancelReloadCross]. *)
Definition clickCancelReloadCross (p : ReloadPage) : ReloadPage :=
  let d := reload_dialog p in
  mkReloadPage
    (emits (replicate (onCancelReloadCross d) E_closeReloadDialog) (reload_world p))
    (mkReloadDialog (onConfirmReload d) (onCancelReload d) 0).

(** The [confirmReload] listeners, run in the order they were bound. *)
Fixpoint runConfirmReload (w : World) (listeners : list (loc * string))
    : option World :=
  match listeners with
  | [] => Some w
  | (manga, newUrl) :: listeners' =>
      w' ← confirmReload w manga newUrl; runConfirmReload w' listeners'
  end.

(** A click on [confirmReload]: its listeners run, once each. *)
Definition clickConfirmReload (p : ReloadPage) : option ReloadPage :=
  let d := reload_dialog p in
  w' ← runConfirmReload (reload_world p) (onConfirmReload d);
  Some (mkReloadPage w'
          (mkReloadDialog [] (onCancelReload d) (onCancelReloadCross d))).

(** The link the listeners leave in the record [l] whose link was [old]: the
    address of the last listener bound for [l]. *)
Definition reloadedLink (listeners : list (loc * string)) (l : loc)
    (old : string) : string :=
  foldl (λ acc b, if bool_decide (b.1 = l) then b.2 else acc) old listeners.

(** Every listener holds a record of the store. *)
Definition listenersBound (p : ReloadPage) : Prop :=
  Forall (λ b, is_Some (heap (reload_world p) !! b.1))
         (onConfirmReload (reload_dialog p)).

Definition reload_page_AB : ReloadPage :=
  mkReloadPage store_AB (mkReloadDialog [] 0 0).

(** The page after a prompt to reload the link of ["B"] on the tab at ["z"]
    was cancelled: its confirm listener and one cancel listener are still
    bound. *)
Definition reload_page_stale : ReloadPage :=
  mkReloadPage
    (mkWorld (heap store_AB) (mangaList store_AB)
             [E_showReloadDialog 1 "z"; E_closeReloadDialog])
    (mkReloadDialog [(1, "z")] 0 1).

(** ** The first version of the add form ([src/addManga.js]) *)

Module AddManga.

(** How [addNewManga] ends: [Rejected message] after [showModal(message)];
    [Added w] after the push, [resetAddForm()] and [refreshAndSaveMangas()],
    with [w] the store then. *)
Inductive Result :=
| Rejected (message : string)
| Added (w : World).

Definition msg_unique : string := "All the titles must be unique".
Definition msg_fields : string :=
  "Todos los campos son necesarios y el número de capítulos debe ser un número válido.".

(** [addNewManga()]; [now] is [new Date().toISOString()]. The record has no
    [isImageWorking] property; it reads as falsy. *)
Definition addNewManga (w : World) (form : FormFields) (now : string) : Result :=
  let image := Js.trim (field_image form) in
  let title := Js.trim (field_title form) in
  let link := Js.trim (field_link form) in
  let readChapters := Js.parseInt (Js.trim (field_readChapters form)) in
  let favorite := field_favorite form in
  if isNameUsed w title then Rejected msg_unique
  else
    match readChapters with
    | Some n =>
        if (Js.truthy title && Js.truthy link && (0 <=? n)%Z)%bool then
          let newManga := mkManga image title link false n favorite now now in
          let l := newLoc w in
          Added (mkWorld (<[l := newManga]> (heap w)) (mangaList w ++ [l])
                         (trace w))
        else Rejected msg_fields
    | None => Rejected msg_fields
    end.

End AddManga.

(** ** Everything a user can do to the store *)

(** The handlers that write to the store, one call each: a form operation,
    the [+] and [-] buttons of an item (with the amount 1 the dispatcher
    passes), its star, one [confirmReload] listener (a click on the button
    is a run of those that are bound, see [clickConfirmReload]), and the
    [error] event of an image. *)
Inductive UiOp :=
| UiForm (op : Op)
| UiAddCap (manga : loc) (item : MangaItem) (maxChapters : Z)
           (now sortOption : string)
| UiRemoveCap (manga : loc) (item : MangaItem) (maxChapters : Z)
              (now sortOption : string)
| UiFavorite (manga : loc) (classes : list string)
| UiConfirmReload (manga : loc) (newUrl : string)
| UiImageError (itemTitle : option string) (tagName src : string) (dark : bool).

(** The world a handler leaves, whether it returned or threw. *)
Definition outcomeWorld (o : Outcome) : World :=
  match o with
  | Returned w _ => w
  | Threw _ w _ => w
  end.

Definition uiStep (w : World) (op : UiOp) : option World :=
  match op with
  | UiForm op => step w op
  | UiAddCap manga item maxChapters now sortOption =>
      outcomeWorld <$> handleChapterUpdate w manga "+" 1 item maxChapters now sortOption
  | UiRemoveCap manga item maxChapters now sortOption =>
      outcomeWorld <$> handleChapterUpdate w manga "-" 1 item maxChapters now sortOption
  | UiFavorite manga classes => fst <$> handleFavoriteToggle w manga classes
  | UiConfirmReload manga newUrl => confirmReload w manga newUrl
  | UiImageError itemTitle tagName src dark =>
      c ← imageErrorListener w itemTitle tagName src dark;
      match c with
      | Done (w', _) => Some w'
      | ThrowsTypeError => Some w
      end
  end.

Fixpoint uiRun (w : World) (ops : list UiOp) : option World :=
  match ops with
  | [] => Some w
  | op :: ops' => w' ← uiStep w op; uiRun w' ops'
  end.

(** The chapter field of a form, when it starts with a number, holds at
    most [2^53]: the numbers [parseInt] reads exactly. *)
Definition form_safe (form : FormFields) : Prop :=
  match Js.parseInt (Js.trim (field_readChapters form)) with
  | Some n => (n ≤ Num.limit)%Z
  | None => True
  end.

(** What an operation needs of the world it runs in: the references it names
    are objects, and its form is [form_safe]. *)
Definition ui_scoped (w : World) (op : UiOp) : Prop :=
  match op with
  | UiForm (OpAdd form _ _) | UiForm (OpSubmit _ form _ _ _) => form_safe form
  | UiForm (OpEdit manga form _ _ _) =>
      is_Some (heap w !! manga) ∧ form_safe form
  | UiForm (OpDelete _) => True
  | UiAddCap manga _ _ _ _ | UiRemoveCap manga _ _ _ _
  | UiFavorite manga _ | UiConfirmReload manga _ => is_Some (heap w !! manga)
  | UiImageError _ _ _ _ => True
  end.

(** A sequence each operation of which is scoped in the world it runs in: an
    operation may name a record that an earlier one of the sequence added. *)
Fixpoint scopedRun (w : World) (ops : list UiOp) : Prop :=
  match ops with
  | [] => True
  | op :: ops' =>
      ui_scoped w op
      ∧ match uiStep w op with
        | Some w' => scopedRun w' ops'
        | None => True
        end
  end.

(** The data model's constraints on a record: a title, and a chapter count
    that is not negative; the count is at most [2^53], the range in which
    counts are exact. *)
Definition validRecord (m : Manga) : Prop :=
  title m ≠ "" ∧ (0 ≤ readChapters m ≤ Num.limit)%Z.

(** The store invariant: distinct titles, valid records. *)
Definition dataModel (w : World) : Prop :=
  uniqueTitles w ∧ Forall validRecord (records w).

Definition manga_C : Manga := mkManga "c.png" "C" "https://c/" true 3 true "day 1" "day 1".
Definition store_ABC : World :=
  mkWorld (<[2 := manga_C]> (<[1 := manga_B]> {[ 0 := manga_A ]})) [0; 1; 2] [].

(** The record the first operation adds is object 3: the fourth operation
    is a click on its [+] button. *)
Definition sample_ui_ops : list UiOp :=
  [ UiForm (OpAdd (mkFormFields "" "" "" "-4" false)
                  [mkChromeTab "A" (Some "https://a/")] "day 2");
    UiRemoveCap 1 item_A 1000 "day 3" "title";
    UiAddCap 3 item_A 1000 "day 3" "title";
    UiAddCap 0 item_A 2 "day 4" "chaptersRead";
    UiFavorite 2 ["fill-yellow-400"];
    UiConfirmReload 0 "https://a/2";
    UiImageError (Some "C") "IMG" "c.png" false;
    UiImageError (Some "Z") "IMG" "z.png" false;
    UiForm (OpDelete 1) ].

(** * Properties *)

Open Scope nat_scope.

(** ** Strings *)

Lemma string_app_length (s1 s2 : string) :
  String.length (s1 +:+ s2) = (String.length s1 + String.length s2)%nat.
Proof. induction s1 as [|c s1 IH]; simpl; [done | by rewrite IH]. Qed.

Lemma string_app_inj_r (s1 s2 t : string) : s1 +:+ t = s2 +:+ t → s1 = s2.
Proof.
  revert s2. induction s1 as [|c s1 IH]; intros [|d s2] H; simpl in *.
  - done.
  - apply (f_equal String.length) in H.
    rewrite !string_app_length in H. simpl in H. lia.
  - apply (f_equal String.length) in H.
    rewrite !string_app_length in H. simpl in H. lia.
  - injection H as -> H. f_equal. by apply IH.
Qed.

Lemma suffixed_inj (t : string) (a b : nat) : suffixed t a = suffixed t b → a = b.
Proof.
  unfold suffixed, Js.toString. intros H.
  apply (inj (String.app t)) in H.
  apply (inj (String.app " (")) in H.
  apply string_app_inj_r in H.
  apply (inj pretty) in H. lia.
Qed.

Lemma truthy_true (s : string) : Js.truthy s = true ↔ s ≠ "".
Proof.
  unfold Js.truthy. destruct (String.eqb_spec s ""); simpl; split; congruence.
Qed.

Lemma truthy_false (s : string) : Js.truthy s = false ↔ s = "".
Proof.
  unfold Js.truthy. destruct (String.eqb_spec s ""); simpl; split; congruence.
Qed.

(** ** The store *)

Lemma titles_cons_Some (h : gmap loc Manga) l ls tr m :
  h !! l = Some m →
  titles (mkWorld h (l :: ls) tr) = title m :: titles (mkWorld h ls tr).
Proof. intros H. unfold titles, records. simpl. by rewrite H. Qed.

Lemma titles_cons_None (h : gmap loc Manga) l ls tr :
  h !! l = None →
  titles (mkWorld h (l :: ls) tr) = titles (mkWorld h ls tr).
Proof. intros H. unfold titles, records. simpl. by rewrite H. Qed.

Lemma titles_trace_irrel h ls tr tr' :
  titles (mkWorld h ls tr) = titles (mkWorld h ls tr').
Proof. done. Qed.

Lemma elem_of_titles (w : World) (t : string) :
  t ∈ titles w ↔ ∃ l m, l ∈ mangaList w ∧ heap w !! l = Some m ∧ title m = t.
Proof.
  unfold titles, records. rewrite list_elem_of_fmap. split.
  - intros (m & -> & Hm). apply list_elem_of_omap in Hm as (l & Hl & Hlm). eauto.
  - intros (l & m & Hl & Hlm & <-). exists m. split; [done|].
    apply list_elem_of_omap. eauto.
Qed.

Lemma isNameUsed_true (w : World) (t : string) :
  isNameUsed w t = true ↔ t ∈ titles w.
Proof.
  unfold isNameUsed. rewrite existsb_exists, elem_of_titles. split.
  - intros (l & Hl & Hm). apply list_elem_of_In in Hl.
    destruct (heap w !! l) as [m|] eqn:E; [|done].
    apply bool_decide_eq_true in Hm. eauto.
  - intros (l & m & Hl & Hlm & Ht). exists l. rewrite <- list_elem_of_In.
    split; [done|]. rewrite Hlm. by apply bool_decide_eq_true.
Qed.

Lemma isNameUsed_false (w : World) (t : string) :
  isNameUsed w t = false ↔ t ∉ titles w.
Proof.
  rewrite <- isNameUsed_true. destruct (isNameUsed w t); split; congruence.
Qed.

Lemma isNameUsed_emits es w t : isNameUsed (emits es w) t = isNameUsed w t.
Proof. done. Qed.

Lemma titles_length (w : World) : length (titles w) ≤ length (mangaList w).
Proof.
  unfold titles, records. rewrite length_fmap.
  unfold omap. induction (mangaList w) as [|l ls IH]; simpl; [lia|].
  destruct (heap w !! l); simpl; lia.
Qed.

(** ** [generateUniqueTitle] *)

(** When the loop gives up, every candidate it looked at is taken. *)
Lemma generateUniqueTitle_loop_None fuel w t counter :
  generateUniqueTitle_loop fuel w t counter = None →
  ∀ k, counter ≤ k ≤ counter + fuel → isNameUsed w (suffixed t k) = true.
Proof.
  revert counter. induction fuel as [|fuel IH]; intros counter H k Hk; simpl in H.
  - destruct (isNameUsed w (suffixed t counter)) eqn:E; [|done].
    by replace k with counter by lia.
  - destruct (isNameUsed w (suffixed t counter)) eqn:E; [|done].
    destruct (decide (k = counter)) as [->|Hne]; [done|].
    apply (IH (S counter)); [done | lia].
Qed.

(** As many iterations as the store has records are enough. *)
Lemma generateUniqueTitle_loop_total fuel w t counter :
  length (mangaList w) ≤ fuel →
  is_Some (generateUniqueTitle_loop fuel w t counter).
Proof.
  intros Hfuel.
  destruct (generateUniqueTitle_loop fuel w t counter) as [r|] eqn:E; [by eexists|].
  exfalso.
  pose proof (generateUniqueTitle_loop_None _ _ _ _ E) as Hused.
  assert (Hsub : (suffixed t <$> seq counter (S fuel)) ⊆+ titles w).
  { apply NoDup_submseteq.
    - apply NoDup_fmap_2_strong; [|apply NoDup_seq].
      intros a b _ _. apply suffixed_inj.
    - intros x (k & -> & Hk)%list_elem_of_fmap. apply elem_of_seq in Hk.
      apply isNameUsed_true, Hused. lia. }
  apply submseteq_length in Hsub.
  rewrite length_fmap, length_seq in Hsub.
  pose proof (titles_length w). lia.
Qed.

(** What the loop returns: the first free candidate from [counter] on. *)
Lemma generateUniqueTitle_loop_Some fuel w t counter r :
  generateUniqueTitle_loop fuel w t counter = Some r →
  ∃ n, counter ≤ n ∧ r = suffixed t n ∧ isNameUsed w r = false
       ∧ ∀ k, counter ≤ k < n → isNameUsed w (suffixed t k) = true.
Proof.
  revert counter. induction fuel as [|fuel IH]; intros counter H; simpl in H.
  - destruct (isNameUsed w (suffixed t counter)) eqn:E; [done|].
    injection H as <-. exists counter. repeat split; [lia | done | lia].
  - destruct (isNameUsed w (suffixed t counter)) eqn:E.
    + destruct (IH _ H) as (n & Hn & -> & Hfree & Hbelow).
      exists n. repeat split; [lia | done |].
      intros k Hk. destruct (decide (k = counter)) as [->|]; [done|].
      apply Hbelow. lia.
    + injection H as <-. exists counter. repeat split; [lia | done | lia].
Qed.

(** More fuel does not change the answer. *)
Lemma generateUniqueTitle_loop_fuel fuel fuel' w t counter r :
  generateUniqueTitle_loop fuel w t counter = Some r → fuel ≤ fuel' →
  generateUniqueTitle_loop fuel' w t counter = Some r.
Proof.
  revert fuel' counter. induction fuel as [|fuel IH]; intros fuel' counter H Hle.
  - simpl in H. destruct (isNameUsed w (suffixed t counter)) eqn:E; [done|].
    destruct fuel'; simpl; by rewrite E.
  - destruct fuel' as [|fuel']; [lia|]. simpl in *.
    destruct (isNameUsed w (suffixed t counter)); [|done].
    apply IH; [done | lia].
Qed.

Lemma generateUniqueTitle_total w t : is_Some (generateUniqueTitle w t).
Proof.
  unfold generateUniqueTitle. destruct (isNameUsed w t); simpl; [|by eexists].
  by apply generateUniqueTitle_loop_total.
Qed.

Lemma generateUniqueTitle_free w t r :
  generateUniqueTitle w t = Some r → isNameUsed w r = false.
Proof.
  unfold generateUniqueTitle. destruct (isNameUsed w t) eqn:E; simpl.
  - intros H. by apply generateUniqueTitle_loop_Some in H as (n & _ & _ & Hf & _).
  - by intros [= <-].
Qed.

Lemma getMangaFormData_total w form tabs : is_Some (getMangaFormData w form tabs).
Proof.
  unfold getMangaFormData.
  destruct (Js.truthy (Js.trim (field_title form))); simpl; [by eexists|].
  destruct (generateUniqueTitle_total w (info_title (getCurrentTabInfo tabs)))
    as [r ->]. simpl. by eexists.
Qed.

Lemma getMangaFormData_title w form tabs mangaData :
  getMangaFormData w form tabs = Some mangaData →
  (Js.trim (field_title form) ≠ "" ∧ data_title mangaData = Js.trim (field_title form))
  ∨ (Js.trim (field_title form) = ""
     ∧ generateUniqueTitle w (info_title (getCurrentTabInfo tabs))
       = Some (data_title mangaData)).
Proof.
  unfold getMangaFormData.
  destruct (Js.truthy (Js.trim (field_title form))) eqn:E; simpl.
  - intros [= <-]. left. by apply truthy_true in E.
  - apply truthy_false in E.
    destruct (generateUniqueTitle w _) as [r|] eqn:G; simpl; [|done].
    intros [= <-]. by right.
Qed.

(** ** Title uniqueness is preserved by each operation *)

Lemma uniqueTitles_emits es w : uniqueTitles w → uniqueTitles (emits es w).
Proof. done. Qed.

Lemma uniqueTitles_emit e w : uniqueTitles w → uniqueTitles (emit e w).
Proof. done. Qed.

Lemma elem_of_titles_store h ls tr l m' x :
  x ∈ titles (mkWorld (<[l := m']> h) ls tr) →
  x = title m' ∨ x ∈ titles (mkWorld h ls tr).
Proof.
  rewrite !elem_of_titles. simpl. intros (l0 & m0 & Hl0 & Hm0 & <-).
  destruct (decide (l = l0)) as [->|Hne].
  - rewrite lookup_insert_eq in Hm0. injection Hm0 as <-. by left.
  - rewrite lookup_insert_ne in Hm0 by done. right. eauto.
Qed.

Lemma titles_store_notin h ls tr l m' :
  l ∉ ls → titles (mkWorld (<[l := m']> h) ls tr) = titles (mkWorld h ls tr).
Proof.
  induction ls as [|l0 ls IH]; intros Hl; [done|].
  apply not_elem_of_cons in Hl as [Hne Hl].
  unfold titles, records in *. simpl in *.
  rewrite lookup_insert_ne by done.
  destruct (h !! l0); simpl; [f_equal|]; by apply IH.
Qed.

Lemma titles_store_same h ls tr l m m' :
  h !! l = Some m → title m' = title m →
  titles (mkWorld (<[l := m']> h) ls tr) = titles (mkWorld h ls tr).
Proof.
  intros Hm Ht. induction ls as [|l0 ls IH]; [done|].
  destruct (decide (l = l0)) as [->|Hne].
  - rewrite (titles_cons_Some _ _ _ _ m') by apply lookup_insert_eq.
    rewrite (titles_cons_Some _ _ _ _ m Hm). by rewrite Ht, IH.
  - destruct (h !! l0) as [m0|] eqn:E.
    + rewrite (titles_cons_Some _ _ _ _ m0) by by rewrite lookup_insert_ne.
      rewrite (titles_cons_Some _ _ _ _ m0 E). by rewrite IH.
    + rewrite titles_cons_None by by rewrite lookup_insert_ne.
      by rewrite (titles_cons_None _ _ _ _ E).
Qed.

Lemma allocated_store h ls tr l m' :
  allocated (mkWorld h ls tr) → allocated (mkWorld (<[l := m']> h) ls tr).
Proof.
  unfold allocated. simpl. intros H. eapply Forall_impl; [exact H|].
  intros l0 Hl0. simpl in *.
  rewrite lookup_insert_is_Some. destruct (decide (l = l0)); auto.
Qed.

Lemma NoDup_titles_store h ls tr l m m' :
  allocated (mkWorld h ls tr) → NoDup (titles (mkWorld h ls tr)) →
  h !! l = Some m → title m' ∉ titles (mkWorld h ls tr) →
  NoDup (titles (mkWorld (<[l := m']> h) ls tr)).
Proof.
  intros Halloc Hnd Hm. induction ls as [|l0 ls IH]; intros Hfree; [done|].
  apply Forall_cons in Halloc as [[m0 Hm0] Halloc]. simpl in Hm0.
  rewrite (titles_cons_Some _ _ _ _ _ Hm0) in Hnd, Hfree.
  apply NoDup_cons in Hnd as [Hm0_notin Hnd].
  apply not_elem_of_cons in Hfree as [Hne Hfree].
  destruct (decide (l = l0)) as [->|Hl].
  - rewrite (titles_cons_Some _ _ _ _ m') by apply lookup_insert_eq.
    assert (Hl0 : l0 ∉ ls).
    { intros Hin. apply Hm0_notin, elem_of_titles. simpl. eauto. }
    rewrite titles_store_notin by done. by apply NoDup_cons.
  - rewrite (titles_cons_Some _ _ _ _ m0) by by rewrite lookup_insert_ne.
    apply NoDup_cons. split; [|by apply IH].
    intros [Heq|Hin]%elem_of_titles_store; congruence.
Qed.

Lemma titles_alloc h ls tr l m :
  allocated (mkWorld h ls tr) → h !! l = None →
  titles (mkWorld (<[l := m]> h) (ls ++ [l])%list tr)
  = (titles (mkWorld h ls tr) ++ [title m])%list.
Proof.
  intros Halloc Hl. unfold titles, records. simpl.
  rewrite omap_app, fmap_app. simpl. rewrite lookup_insert_eq. simpl. f_equal.
  assert (Hnotin : l ∉ ls).
  { intros Hin. unfold allocated in Halloc. simpl in Halloc.
    rewrite Forall_forall in Halloc. destruct (Halloc _ Hin) as [? ?]. congruence. }
  apply (titles_store_notin h ls tr l m Hnotin).
Qed.

Lemma newLoc_fresh w : heap w !! newLoc w = None.
Proof. apply not_elem_of_dom. unfold newLoc. apply is_fresh. Qed.

Lemma validateMangaData_None w mangaData originalTitle :
  validateMangaData w mangaData originalTitle = None →
  data_title mangaData ≠ ""
  ∧ (data_title mangaData = originalTitle
     ∨ isNameUsed w (data_title mangaData) = false).
Proof.
  unfold validateMangaData.
  destruct (Js.truthy (data_title mangaData)) eqn:E; simpl; [|done].
  apply truthy_true in E.
  destruct (bool_decide_reflect (data_title mangaData = originalTitle)); simpl.
  - intros _. auto.
  - destruct (isNameUsed w (data_title mangaData)); [done|]. auto.
Qed.

Lemma addNewManga_unique w form tabs now w' :
  uniqueTitles w → addNewManga w form tabs now = Some w' → uniqueTitles w'.
Proof.
  intros [Halloc Hnd]. unfold addNewManga.
  destruct (getMangaFormData w form tabs) as [mangaData|]; simpl; [|done].
  destruct (validateMangaData w mangaData "") as [err|] eqn:V.
  - intros [= <-]. by apply uniqueTitles_emit.
  - intros [= <-]. apply uniqueTitles_emits.
    apply validateMangaData_None in V as [Hne [Heq|Hfree]]; [done|].
    apply isNameUsed_false in Hfree.
    destruct w as [h ls tr]. simpl in *. split.
    + unfold allocated. simpl. apply Forall_app. split.
      * by apply (allocated_store h ls tr).
      * apply Forall_singleton. rewrite lookup_insert_eq. by eexists.
    + rewrite titles_alloc; [|done|apply (newLoc_fresh (mkWorld h ls tr))].
      apply NoDup_app. repeat split; [done| |apply NoDup_singleton].
      intros x Hx ->%list_elem_of_singleton. done.
Qed.

Lemma handleLinkReload_unique w manga tabs w' :
  uniqueTitles w → handleLinkReload w manga tabs = Some w' → uniqueTitles w'.
Proof.
  intros Hu. unfold handleLinkReload.
  destruct (heap w !! manga) as [m|]; simpl; [|done].
  case_bool_decide; intros [= <-]; by apply uniqueTitles_emit.
Qed.

Lemma updateMangaDetails_unique w manga form tabs now tabsReload w' :
  uniqueTitles w →
  updateMangaDetails w manga form tabs now tabsReload = Some w' →
  uniqueTitles w'.
Proof.
  intros Hu. unfold updateMangaDetails.
  destruct (getMangaFormData w form tabs) as [mangaData|]; simpl; [|done].
  destruct (heap w !! manga) as [m|] eqn:Hm; simpl; [|done].
  destruct (validateMangaData w mangaData (title m)) as [err|] eqn:V.
  { intros [= <-]. by apply uniqueTitles_emit. }
  destruct (hasChanges m mangaData).
  { intros H. apply (handleLinkReload_unique _ _ _ _ Hu H). }
  intros [= <-]. apply uniqueTitles_emits.
  destruct Hu as [Halloc Hnd]. destruct w as [h ls tr]. simpl in *.
  split; [by apply allocated_store|]. unfold store. simpl.
  apply validateMangaData_None in V as [Hne [Heq|Hfree]].
  - by rewrite (titles_store_same h ls tr manga m).
  - apply (NoDup_titles_store h ls tr manga m); [done..|].
    by apply isNameUsed_false in Hfree.
Qed.

Lemma titles_filter_sublist h ls tr (P : loc → Prop) `{!∀ l, Decision (P l)} :
  sublist (titles (mkWorld h (filter P ls) tr)) (titles (mkWorld h ls tr)).
Proof.
  induction ls as [|l0 ls IH]; [done|].
  rewrite filter_cons. destruct (decide (P l0)).
  - destruct (h !! l0) as [m0|] eqn:E.
    + rewrite !(titles_cons_Some _ _ _ _ _ E). by apply sublist_skip.
    + by rewrite !(titles_cons_None _ _ _ _ E).
  - destruct (h !! l0) as [m0|] eqn:E.
    + rewrite (titles_cons_Some _ _ _ _ _ E). by apply sublist_cons.
    + by rewrite (titles_cons_None _ _ _ _ E).
Qed.

Lemma deleteManga_unique w manga :
  uniqueTitles w → uniqueTitles (deleteManga w manga).
Proof.
  intros [Halloc Hnd]. unfold deleteManga. apply uniqueTitles_emits.
  destruct w as [h ls tr]. simpl. split.
  - unfold allocated in *. simpl in *. rewrite Forall_forall in *.
    intros l [_ Hl]%list_elem_of_filter. auto.
  - exact (sublist_NoDup _ _ Hnd (titles_filter_sublist _ _ _ _)).
Qed.

Lemma findByTitle_Some w t l :
  findByTitle w t = Some l →
  l ∈ mangaList w ∧ ∃ m, heap w !! l = Some m ∧ title m = t.
Proof.
  unfold findByTitle. intros [Hin Hp]%find_some.
  split; [by apply list_elem_of_In|].
  destruct (heap w !! l) as [m|]; [|done].
  apply bool_decide_eq_true in Hp. eauto.
Qed.

Lemma handleFormSubmission_unique w dataset form tabs now tabsReload w' :
  uniqueTitles w →
  handleFormSubmission w dataset form tabs now tabsReload = Some w' →
  uniqueTitles w'.
Proof.
  intros Hu. unfold handleFormSubmission.
  destruct (_ && _)%bool.
  - destruct (findByTitle w _) as [manga|].
    + apply updateMangaDetails_unique, Hu.
    + intros [= <-]. by apply uniqueTitles_emit.
  - destruct (addNewManga w form tabs now) as [w1|] eqn:A; simpl; [|done].
    intros [= <-]. apply uniqueTitles_emit.
    eapply addNewManga_unique; eauto.
Qed.

(** Under the invariant a title determines its record. *)
Lemma uniqueTitles_inj w l1 l2 m1 m2 :
  uniqueTitles w → l1 ∈ mangaList w → l2 ∈ mangaList w →
  heap w !! l1 = Some m1 → heap w !! l2 = Some m2 →
  title m1 = title m2 → l1 = l2.
Proof.
  intros [_ Hnd]. destruct w as [h ls tr]. simpl.
  intros H1 H2 Hm1 Hm2 Ht. induction ls as [|l0 ls IH]; [by inv H1|].
  destruct (h !! l0) as [m0|] eqn:E.
  - rewrite (titles_cons_Some _ _ _ _ _ E) in Hnd.
    apply NoDup_cons in Hnd as [Hnotin Hnd].
    apply elem_of_cons in H1 as [->|H1]; apply elem_of_cons in H2 as [->|H2].
    + done.
    + exfalso. apply Hnotin, elem_of_titles. simpl. exists l2, m2.
      repeat split; [done..|]. congruence.
    + exfalso. apply Hnotin, elem_of_titles. simpl. exists l1, m1.
      repeat split; [done..|]. congruence.
    + by apply IH.
  - rewrite (titles_cons_None _ _ _ _ E) in Hnd.
    apply elem_of_cons in H1 as [->|H1]; [congruence|].
    apply elem_of_cons in H2 as [->|H2]; [congruence|].
    by apply IH.
Qed.

(** ** Rejection of a title that is already taken *)

Lemma getMangaFormData_used w form tabs mangaData :
  getMangaFormData w form tabs = Some mangaData →
  isNameUsed w (data_title mangaData) = true →
  data_title mangaData ≠ "".
Proof.
  intros Hd Hused.
  destruct (getMangaFormData_title _ _ _ _ Hd) as [[Hne ->]|[_ Hgen]]; [done|].
  apply generateUniqueTitle_free in Hgen. congruence.
Qed.

Lemma validateMangaData_used w mangaData originalTitle :
  data_title mangaData ≠ "" → data_title mangaData ≠ originalTitle →
  isNameUsed w (data_title mangaData) = true →
  validateMangaData w mangaData originalTitle = Some "modal-unique-title-required".
Proof.
  intros Hne Horig Hused. unfold validateMangaData.
  apply truthy_true in Hne. rewrite Hne. simpl.
  rewrite bool_decide_eq_false_2 by done. by rewrite Hused.
Qed.

Lemma addNewManga_rejects w form tabs now mangaData :
  getMangaFormData w form tabs = Some mangaData →
  isNameUsed w (data_title mangaData) = true →
  addNewManga w form tabs now
  = Some (emit (E_showModal "modal-unique-title-required") w).
Proof.
  intros Hd Hused. unfold addNewManga. rewrite Hd. simpl.
  pose proof (getMangaFormData_used _ _ _ _ Hd Hused) as Hne.
  by rewrite validateMangaData_used.
Qed.

Lemma updateMangaDetails_rejects w manga m form tabs now tabsReload mangaData :
  heap w !! manga = Some m →
  getMangaFormData w form tabs = Some mangaData →
  data_title mangaData ≠ title m →
  isNameUsed w (data_title mangaData) = true →
  updateMangaDetails w manga form tabs now tabsReload
  = Some (emit (E_showModal "modal-unique-title-required") w).
Proof.
  intros Hm Hd Hne Hused. unfold updateMangaDetails. rewrite Hd. simpl.
  rewrite Hm. simpl.
  pose proof (getMangaFormData_used _ _ _ _ Hd Hused) as Hne'.
  by rewrite validateMangaData_used.
Qed.

(** ** Every operation returns *)

Lemma addNewManga_total w form tabs now : is_Some (addNewManga w form tabs now).
Proof.
  unfold addNewManga.
  destruct (getMangaFormData_total w form tabs) as [mangaData ->]. simpl.
  destruct (validateMangaData w mangaData ""); by eexists.
Qed.

Lemma handleLinkReload_total w manga tabs :
  is_Some (heap w !! manga) → is_Some (handleLinkReload w manga tabs).
Proof.
  intros [m Hm]. unfold handleLinkReload. rewrite Hm. simpl.
  case_bool_decide; by eexists.
Qed.

Lemma updateMangaDetails_total w manga form tabs now tabsReload :
  is_Some (heap w !! manga) →
  is_Some (updateMangaDetails w manga form tabs now tabsReload).
Proof.
  intros [m Hm]. unfold updateMangaDetails.
  destruct (getMangaFormData_total w form tabs) as [mangaData ->]. simpl.
  rewrite Hm. simpl.
  destruct (validateMangaData w mangaData (title m)); [by eexists|].
  destruct (hasChanges m mangaData); [|by eexists].
  apply handleLinkReload_total. by eexists.
Qed.

Lemma handleFormSubmission_total w dataset form tabs now tabsReload :
  is_Some (handleFormSubmission w dataset form tabs now tabsReload).
Proof.
  unfold handleFormSubmission. destruct (_ && _)%bool.
  - destruct (findByTitle w _) as [manga|] eqn:F; [|by eexists].
    apply findByTitle_Some in F as (_ & m & Hm & _).
    apply updateMangaDetails_total. by eexists.
  - destruct (addNewManga_total w form tabs now) as [w1 ->]. simpl. by eexists.
Qed.

Lemma addNewManga_heap w form tabs now w' :
  addNewManga w form tabs now = Some w' → heap_grows w w'.
Proof.
  unfold addNewManga.
  destruct (getMangaFormData w form tabs) as [mangaData|]; simpl; [|done].
  destruct (validateMangaData w mangaData ""); intros [= <-] l Hl; simpl; [done|].
  rewrite lookup_insert_is_Some. destruct (decide (newLoc w = l)); auto.
Qed.

Lemma updateMangaDetails_heap w manga form tabs now tabsReload w' :
  updateMangaDetails w manga form tabs now tabsReload = Some w' →
  heap_grows w w'.
Proof.
  unfold updateMangaDetails, handleLinkReload.
  destruct (getMangaFormData w form tabs) as [mangaData|]; simpl; [|done].
  destruct (heap w !! manga) as [m|] eqn:Hm; simpl; [|done].
  destruct (validateMangaData w mangaData (title m));
    [by intros [= <-] l Hl|].
  destruct (hasChanges m mangaData).
  - case_bool_decide; by intros [= <-] l Hl.
  - intros [= <-] l Hl. simpl.
    rewrite lookup_insert_is_Some. destruct (decide (manga = l)); auto.
Qed.

Lemma step_heap w op w' : step w op = Some w' → heap_grows w w'.
Proof.
  destruct op; simpl.
  - apply addNewManga_heap.
  - unfold handleFormSubmission. destruct (_ && _)%bool.
    + destruct (findByTitle w _); [apply updateMangaDetails_heap|].
      by intros [= <-] l Hl.
    + destruct (addNewManga w form tabs now) as [w1|] eqn:A; simpl; [|done].
      intros [= <-]. by apply addNewManga_heap in A.
  - apply updateMangaDetails_heap.
  - by intros [= <-] l Hl.
Qed.

Lemma step_total w op : op_scoped w op → is_Some (step w op).
Proof.
  destruct op; simpl; intros Hs.
  - apply addNewManga_total.
  - apply handleFormSubmission_total.
  - by apply updateMangaDetails_total.
  - by eexists.
Qed.

Lemma step_unique w op w' : uniqueTitles w → step w op = Some w' → uniqueTitles w'.
Proof.
  intros Hu. destruct op; simpl.
  - by apply addNewManga_unique.
  - by apply handleFormSubmission_unique.
  - by apply updateMangaDetails_unique.
  - intros [= <-]. by apply deleteManga_unique.
Qed.

Lemma op_scoped_grows w w' op : heap_grows w w' → op_scoped w op → op_scoped w' op.
Proof. intros Hg. destruct op; simpl; auto. Qed.

Lemma run_unique w ops :
  uniqueTitles w → Forall (op_scoped w) ops →
  ∃ w', run w ops = Some w' ∧ uniqueTitles w'.
Proof.
  revert w. induction ops as [|op ops IH]; intros w Hu Hs; simpl.
  - eauto.
  - apply Forall_cons in Hs as [Hop Hs].
    destruct (step_total w op Hop) as [w1 Hw1]. rewrite Hw1. simpl.
    apply IH.
    + by apply (step_unique w op).
    + eapply Forall_impl; [exact Hs|]. intros op'.
      apply op_scoped_grows. by apply (step_heap w op).
Qed.

(** ** [parseInt] reads back what [toString] prints *)

Lemma digitValue_pretty_N_char (d : N) :
  (d < 10)%N → Js.digitValue (pretty_N_char d) = Some (Z.of_N d).
Proof.
  intros Hd.
  assert (d = 0 ∨ d = 1 ∨ d = 2 ∨ d = 3 ∨ d = 4 ∨ d = 5 ∨ d = 6 ∨ d = 7
          ∨ d = 8 ∨ d = 9)%N as Hcases by lia.
  repeat destruct Hcases as [->|Hcases]; try subst d; reflexivity.
Qed.

Lemma parseDigits_pretty_N_go (x : N) :
  (0 < x)%N →
  ∃ p : Z, ∀ s acc,
    Js.parseDigits (pretty_N_go x s) acc
    = Js.parseDigits s (Some (default 0 acc * p + Z.of_N x)%Z).
Proof.
  induction (N.lt_wf_0 x) as [x _ IH]; intros Hx.
  assert (Hmod : (x `mod` 10 < 10)%N) by (apply N.mod_lt; lia).
  destruct (decide (x `div` 10 = 0)%N) as [Hdiv|Hdiv].
  - exists 10%Z. intros s acc.
    rewrite pretty_N_go_step, Hdiv, pretty_N_go_0 by done. simpl.
    rewrite digitValue_pretty_N_char by done.
    do 2 f_equal. pose proof (N.div_mod x 10 ltac:(done)) as H.
    rewrite Hdiv, N.mul_0_r, N.add_0_l in H. rewrite <- H. ring.
  - destruct (IH (x `div` 10)%N) as [p Hp]; [apply N.div_lt; lia | by apply N.neq_0_lt_0 |].
    exists (10 * p)%Z. intros s acc.
    rewrite pretty_N_go_step, Hp by done. simpl.
    rewrite digitValue_pretty_N_char by done.
    do 2 f_equal.
    assert (Z.of_N x = 10 * Z.of_N (x `div` 10) + Z.of_N (x `mod` 10))%Z as ->.
    { rewrite (N.div_mod x 10) at 1 by done.
      by rewrite N2Z.inj_add, N2Z.inj_mul. }
    ring.
Qed.

Lemma pretty_N_go_head (x : N) (s : string) :
  (0 < x)%N → ∃ d r, (d < 10)%N ∧ pretty_N_go x s = String (pretty_N_char d) r.
Proof.
  revert s. induction (N.lt_wf_0 x) as [x _ IH]; intros s Hx.
  rewrite pretty_N_go_step by done.
  destruct (decide (x `div` 10 = 0)%N) as [Hdiv|Hdiv].
  - rewrite Hdiv, pretty_N_go_0. exists (x `mod` 10)%N, s.
    split; [apply N.mod_lt; lia | done].
  - apply IH; [apply N.div_lt; lia | by apply N.neq_0_lt_0].
Qed.

Lemma parseInt_digit_head (d : N) (r : string) :
  (d < 10)%N →
  Js.parseInt (String (pretty_N_char d) r)
  = Js.parseDigits (String (pretty_N_char d) r) None.
Proof.
  intros Hd.
  assert (d = 0 ∨ d = 1 ∨ d = 2 ∨ d = 3 ∨ d = 4 ∨ d = 5 ∨ d = 6 ∨ d = 7
          ∨ d = 8 ∨ d = 9)%N as Hcases by lia.
  repeat destruct Hcases as [->|Hcases]; try subst d; reflexivity.
Qed.

Lemma parseInt_pretty_pos (x : positive) :
  Js.parseDigits (pretty (Npos x)) None = Some (Zpos x)
  ∧ Js.parseInt (pretty (Npos x)) = Some (Zpos x).
Proof.
  unfold pretty, pretty_N. rewrite decide_False by done.
  destruct (parseDigits_pretty_N_go (Npos x)) as [p Hp]; [lia|].
  assert (Hd : Js.parseDigits (pretty_N_go (N.pos x) "") None = Some (Z.pos x)).
  { rewrite Hp. simpl. done. }
  split; [done|].
  destruct (pretty_N_go_head (Npos x) "") as (d & r & Hd10 & Hhead); [lia|].
  rewrite Hhead in *. by rewrite parseInt_digit_head.
Qed.

Lemma parseInt_toString (n : Z) : Js.parseInt (Js.toString n) = Some n.
Proof.
  unfold Js.toString, pretty, pretty_Z. destruct n as [|x|x].
  - reflexivity.
  - apply parseInt_pretty_pos.
  - change (Js.parseInt (String "-" (pretty (Npos x))) = Some (Z.neg x)).
    unfold Js.parseInt. simpl.
    destruct (parseInt_pretty_pos x) as [-> _]. done.
Qed.

Lemma Num_parseInt_or_else (n d : Z) :
  Num.or_else (Num.parseInt n) d = if (n =? 0)%Z then d else n.
Proof. unfold Num.parseInt. by rewrite parseInt_toString. Qed.

(** ** Unique titles: the invariant, the rejections, the auto-filled title *)

Lemma rejectsTakenTitles_unique w : uniqueTitles w → rejectsTakenTitles w.
Proof.
  intros Hu. split.
  - intros form tabs now d Hd Hin.
    apply (addNewManga_rejects _ _ _ _ d); [done|]. by apply isNameUsed_true.
  - intros manga other m m' form tabs now tabsReload d
           Hmanga Hother Hne Hm Hm' Hd Ht.
    apply (updateMangaDetails_rejects _ _ m _ _ _ _ d); [done..| |].
    + intros Heq. apply Hne.
      apply (uniqueTitles_inj w other manga m' m); [done..|congruence].
    + apply isNameUsed_true, elem_of_titles. eauto.
Qed.

(** C1. Starting from a store with pairwise-distinct titles, every sequence
    of add, edit and delete operations returns and leaves a store whose
    titles are pairwise distinct; in that store [addNewManga] turns down a
    title that is present and [updateMangaDetails] a title of another
    record. *)
Theorem titles_stay_unique (w : World) (ops : list Op) :
  uniqueTitles w → Forall (op_scoped w) ops →
  ∃ w', run w ops = Some w' ∧ uniqueTitles w' ∧ rejectsTakenTitles w'.
Proof.
  intros Hu Hs. destruct (run_unique w ops Hu Hs) as (w' & Hrun & Hu').
  exists w'. repeat split; [done | apply Hu' | apply Hu' | |];
    by apply rejectsTakenTitles_unique.
Qed.

Lemma titles_stay_unique_witness :
  ∃ w', run store_A sample_ops = Some w' ∧ uniqueTitles w'
        ∧ rejectsTakenTitles w'.
Proof.
  apply (titles_stay_unique store_A sample_ops).
  - split.
    + repeat constructor. vm_compute. eauto.
    + vm_compute. apply NoDup_singleton.
  - repeat constructor. vm_compute. eauto.
Defined.

(** The sample run: an auto-filled add, a rejected add, a rename, a rejected
    rename, a delete, and an add of the title the delete freed. *)
Example sample_run :
  (λ w, (mangaList w, titles w)) <$> run store_A sample_ops
  = Some ([1; 2], ["B"; "A"]).
Proof. reflexivity. Qed.

(** C2. When the submitted record carries a title that some stored record
    has, [addNewManga] shows the [modal-unique-title-required] message and
    leaves the store as it was, its length included. *)
Theorem duplicate_title_rejected (w : World) (form : FormFields)
    (tabs : list ChromeTab) (now : string) (d : MangaData) :
  getMangaFormData w form tabs = Some d →
  data_title d ∈ titles w →
  ∃ w', addNewManga w form tabs now = Some w'
        ∧ trace w' = (trace w ++ [E_showModal "modal-unique-title-required"])%list
        ∧ mangaList w' = mangaList w
        ∧ heap w' = heap w
        ∧ records w' = records w
        ∧ length (mangaList w') = length (mangaList w).
Proof.
  intros Hd Hin. eexists. split.
  - apply (addNewManga_rejects _ _ _ _ d); [done|]. by apply isNameUsed_true.
  - done.
Qed.

Lemma duplicate_title_rejected_witness :
  ∃ w', addNewManga store_A form_A_x [] "now" = Some w'
        ∧ trace w' = (trace store_A ++ [E_showModal "modal-unique-title-required"])%list
        ∧ mangaList w' = mangaList store_A
        ∧ heap w' = heap store_A
        ∧ records w' = records store_A
        ∧ length (mangaList w') = length (mangaList store_A).
Proof.
  apply (duplicate_title_rejected store_A form_A_x [] "now"
           (mkMangaData "" "A" "x" true 0 false)).
  - reflexivity.
  - apply isNameUsed_true. reflexivity.
Defined.

(** C6. With an empty title field the form takes the title of the active
    tab, the first tab [chrome.tabs.query] answers with, passed through
    [generateUniqueTitle] (a tab without a title stands as ["Error"], no tab
    at all as the empty title); and [generateUniqueTitle] returns the base
    title when no record has it, and otherwise the base title followed by
    [" (n)"] for the least positive [n] that no record's title matches. *)
Theorem autofilled_title_unique (w : World) (form : FormFields)
    (tabs : list ChromeTab) (base : string) :
  (Js.trim (field_title form) = "" →
   ∃ d, getMangaFormData w form tabs = Some d
        ∧ (∀ tab rest, tabs = tab :: rest → tab_title tab ≠ "" →
             generateUniqueTitle w (tab_title tab) = Some (data_title d))
        ∧ (∀ tab rest, tabs = tab :: rest → tab_title tab = "" →
             generateUniqueTitle w "Error" = Some (data_title d))
        ∧ (tabs = [] → generateUniqueTitle w "" = Some (data_title d)))
  ∧ ∃ r, generateUniqueTitle w base = Some r
         ∧ (r ∉ titles w)
         ∧ (base ∉ titles w → r = base)
         ∧ (base ∈ titles w →
            ∃ n, 1 ≤ n
                 ∧ r = base +:+ " (" +:+ Js.toString (Z.of_nat n) +:+ ")"
                 ∧ ∀ k, 1 ≤ k < n → suffixed base k ∈ titles w).
Proof.
  split.
  - intros Hempty. destruct (getMangaFormData_total w form tabs) as [d Hd].
    exists d. split; [done|].
    destruct (getMangaFormData_title _ _ _ _ Hd) as [[Hne _]|[_ Hgen]]; [done|].
    split; [|split].
    + intros tab rest -> Ht. cbn [getCurrentTabInfo info_title] in Hgen.
      unfold Js.or_else in Hgen. apply truthy_true in Ht. by rewrite Ht in Hgen.
    + intros tab rest -> Ht. cbn [getCurrentTabInfo info_title] in Hgen.
      by rewrite Ht in Hgen.
    + by intros ->.
  - destruct (generateUniqueTitle_total w base) as [r Hr]. exists r.
    split; [done|]. split.
    { by apply isNameUsed_false, (generateUniqueTitle_free w base). }
    unfold generateUniqueTitle in Hr. split.
    + intros Hfree%isNameUsed_false. rewrite Hfree in Hr. simpl in Hr. congruence.
    + intros Hused%isNameUsed_true. rewrite Hused in Hr. simpl in Hr.
      apply generateUniqueTitle_loop_Some in Hr as (n & Hn & -> & _ & Hbelow).
      exists n. repeat split; [done..|].
      intros k Hk. by apply isNameUsed_true, Hbelow.
Qed.

Lemma autofilled_title_unique_witness :
  (∃ d, getMangaFormData store_A_A1 form_empty tabs_A = Some d
        ∧ generateUniqueTitle store_A_A1 "A" = Some (data_title d))
  ∧ ∃ r, generateUniqueTitle store_A_A1 "A" = Some r
         ∧ (r ∉ titles store_A_A1)
         ∧ ∃ n, 1 ≤ n
                ∧ r = "A" +:+ " (" +:+ Js.toString (Z.of_nat n) +:+ ")"
                ∧ ∀ k, 1 ≤ k < n → suffixed "A" k ∈ titles store_A_A1.
Proof.
  destruct (autofilled_title_unique store_A_A1 form_empty tabs_A "A")
    as [Hfill (r & Hr & Hfree & _ & Hused)].
  split.
  - destruct (Hfill eq_refl) as (d & Hd & Htab & _). exists d.
    split; [exact Hd|].
    apply (Htab (mkChromeTab "A" (Some "https://a/")) []);
      [reflexivity | discriminate].
  - exists r. split; [exact Hr|]. split; [exact Hfree|].
    apply Hused. apply isNameUsed_true. reflexivity.
Defined.

(** [store=[{title:"A"},{title:"A (1)"}]], empty title field: on the tab
    titled ["A"] the form gives ["A (2)"], on a tab without a title
    ["Error"], and without a tab the empty title. *)
Example generateUniqueTitle_A_A1 :
  generateUniqueTitle store_A_A1 "A" = Some "A (2)"
  ∧ generateUniqueTitle store_A_A1 "B" = Some "B"
  ∧ data_title <$> getMangaFormData store_A_A1 form_empty tabs_A = Some "A (2)"
  ∧ data_title <$> getMangaFormData store_A_A1 form_empty [mkChromeTab "" None]
    = Some "Error"
  ∧ data_title <$> getMangaFormData store_A_A1 form_empty [] = Some "".
Proof. repeat split; reflexivity. Qed.

(** ** Numbers *)

Section num_round.
Local Open Scope Z_scope.

(** Integers of magnitude at most [2^53] are doubles: rounding keeps them. *)
Lemma Num_round_safe (z : Z) : Num.safe z → Num.round z = z.
Proof.
  unfold Num.safe, Num.limit. intros Hz.
  destruct (Z.eq_dec (Z.abs z) (2 ^ 53)) as [Heq|Hne].
  - assert (z = 2 ^ 53 ∨ z = - 2 ^ 53) as [-> | ->] by lia; reflexivity.
  - unfold Num.round.
    destruct (Z.leb_spec (Z.log2 (Z.abs z) - 52) 0) as [|Hlt]; [done|].
    exfalso.
    destruct (Z.eq_dec (Z.abs z) 0) as [H0|H0];
      [rewrite H0 in Hlt; simpl in Hlt; lia|].
    assert (Z.log2 (Z.abs z) < 53); [|lia].
    apply Z.log2_lt_pow2; lia.
Qed.

(** Rounding keeps the sign. *)
Lemma Num_round_sign (z : Z) : Z.sgn (Num.round z) = Z.sgn z.
Proof.
  unfold Num.round.
  destruct (Z.leb_spec (Z.log2 (Z.abs z) - 52) 0) as [|Hlt]; [done|].
  assert (0 < Z.abs z) as Ha.
  { destruct (Z.eq_dec (Z.abs z) 0) as [H0|H0]; [|lia].
    rewrite H0 in Hlt. simpl in Hlt. lia. }
  set (a := Z.abs z) in *. set (e := Z.log2 a - 52) in *.
  assert (1 ≤ Z.shiftr a e) as Hq.
  { rewrite Z.shiftr_div_pow2 by lia.
    apply Z.div_le_lower_bound; [apply Z.pow_pos_nonneg; lia|].
    rewrite Z.mul_1_r.
    transitivity (2 ^ Z.log2 a); [|apply Z.log2_spec; lia].
    apply Z.pow_le_mono_r; lia. }
  match goal with |- context [Z.shiftl ?q' e] =>
    assert (0 < Z.shiftl q' e) as Hs end.
  { rewrite Z.shiftl_mul_pow2 by lia.
    apply Z.mul_pos_pos; [|apply Z.pow_pos_nonneg; lia].
    destruct (_ || _)%bool; lia. }
  rewrite Z.sgn_mul. rewrite (Z.sgn_pos (Z.shiftl _ _)) by exact Hs.
  rewrite Z.sgn_sgn. lia.
Qed.

Lemma Num_round_nonneg (z : Z) : 0 ≤ Num.round z ↔ 0 ≤ z.
Proof. pose proof (Num_round_sign z). lia. Qed.

(** Adding 1 never leads past [2^53]: there the sum is rounded back. *)
Lemma Num_add_1_limit (z : Z) :
  0 ≤ z ≤ Num.limit → 0 ≤ Num.add z 1 ≤ Num.limit.
Proof.
  intros Hz. unfold Num.add.
  destruct (Z.eq_dec z Num.limit) as [->|Hne]; [by vm_compute|].
  rewrite Num_round_safe; unfold Num.safe, Num.limit in *; lia.
Qed.

Lemma Num_add_safe (a b : Z) : Num.safe (a + b) → Num.add a b = a + b.
Proof. apply Num_round_safe. Qed.

Lemma Num_sub_safe (a b : Z) : Num.safe (a - b) → Num.sub a b = a - b.
Proof. apply Num_round_safe. Qed.

End num_round.

(** ** [handleChapterUpdate] *)

Lemma Num_parseInt_or_0 (n : Z) : Num.or_else (Num.parseInt n) 0 = n.
Proof. rewrite Num_parseInt_or_else. destruct (Z.eqb_spec n 0); congruence. Qed.

(** The amount after [parseInt(amount, 10) || 1]. *)
Lemma Num_parseInt_or_1 (amount : Z) :
  amount ≠ 0%Z → Num.or_else (Num.parseInt amount) 1 = amount.
Proof.
  intros Hne. rewrite Num_parseInt_or_else.
  destruct (Z.eqb_spec amount 0); congruence.
Qed.

Lemma finishChapterUpdate_record w manga m item now sortOption :
  ∃ w' item',
    finishChapterUpdate w manga m item now sortOption = Returned w' item'
    ∧ heap w' !! manga = Some (setLastRead now m)
    ∧ mangaList w' = mangaList w
    ∧ date_text item' = now
    ∧ chapter_count_text item' = "Ch. " +:+ Js.toString (readChapters m).
Proof.
  unfold finishChapterUpdate. do 2 eexists. split; [done|].
  case_bool_decide; simpl; by rewrite lookup_insert_eq.
Qed.

Lemma handleChapterUpdate_minus w manga m amount item maxChapters now sortOption :
  heap w !! manga = Some m → amount ≠ 0%Z →
  handleChapterUpdate w manga "-" amount item maxChapters now sortOption
  = Some (finishChapterUpdate w manga
            (if (readChapters m <=? 0)%Z then setReadChapters 0 m
             else setReadChapters (Num.sub (readChapters m) amount) m)
            item now sortOption).
Proof.
  intros Hm Hne. unfold handleChapterUpdate. rewrite Hm.
  cbn [mbind option_bind]. rewrite bool_decide_eq_false_2 by done.
  rewrite bool_decide_eq_true_2 by done.
  by rewrite Num_parseInt_or_0, Num_parseInt_or_1.
Qed.

Lemma handleChapterUpdate_plus w manga m amount item maxChapters now sortOption :
  heap w !! manga = Some m → amount ≠ 0%Z →
  handleChapterUpdate w manga "+" amount item maxChapters now sortOption
  = Some (finishChapterUpdate
            (if (Num.add (readChapters m) amount >? maxChapters)%Z
             then emit (E_handleMaxChapters (Num.add (readChapters m) amount)) w
             else w)
            manga (setReadChapters (Num.add (readChapters m) amount) m)
            item now sortOption).
Proof.
  intros Hm Hne. unfold handleChapterUpdate. rewrite Hm.
  cbn [mbind option_bind]. rewrite bool_decide_eq_true_2 by done.
  by rewrite Num_parseInt_or_0, Num_parseInt_or_1.
Qed.

(** With the amount the dispatcher passes, 1, the count stays at or above
    zero. *)
Lemma decrement_by_one_nonneg w manga m item maxChapters now sortOption :
  heap w !! manga = Some m → (0 ≤ readChapters m)%Z →
  ∃ w' item' m',
    handleChapterUpdate w manga "-" 1 item maxChapters now sortOption
    = Some (Returned w' item')
    ∧ heap w' !! manga = Some m'
    ∧ (0 ≤ readChapters m')%Z
    ∧ ((readChapters m ≤ Num.limit)%Z →
       readChapters m' = Z.max 0 (readChapters m - 1))
    ∧ lastRead m' = now.
Proof.
  intros Hm Hpos. rewrite (handleChapterUpdate_minus _ _ m) by done.
  edestruct finishChapterUpdate_record as (w' & item' & -> & Hw' & _).
  exists w', item'. eexists. split; [done|]. split; [exact Hw'|].
  split; [|split; [|done]].
  - destruct (Z.leb_spec (readChapters m) 0); simpl; [lia|].
    apply Num_round_nonneg. lia.
  - intros Hle. destruct (Z.leb_spec (readChapters m) 0); simpl; [lia|].
    rewrite Num_sub_safe; [lia|]. unfold Num.safe, Num.limit in *. lia.
Qed.

(** [store=[{title:"A", readChapters:5}]; handleChapterUpdate(A, "-", 1)]:
    the count becomes 4 and [lastRead] is updated. *)
Example decrement_scenario :
  ∃ w' item',
    handleChapterUpdate store_A5 0 "-" 1 item_A5 1000 "now" "title"
    = Some (Returned w' item')
    ∧ readChapters <$> heap w' !! 0 = Some 4%Z
    ∧ lastRead <$> heap w' !! 0 = Some "now"
    ∧ chapter_count_text item' = "Ch. 4".
Proof. do 2 eexists. split; [reflexivity|]. repeat split; reflexivity. Qed.

(** C3. On a record with 2 read chapters, [handleChapterUpdate(record, "-", 5)]
    stores -3 and shows ["Ch. -3"]: the guard looks at the count before the
    subtraction only. *)
Theorem decrement_past_zero_goes_negative :
  ∃ w' item',
    handleChapterUpdate store_A 0 "-" 5 item_A 1000 "now" "title"
    = Some (Returned w' item')
    ∧ readChapters <$> heap w' !! 0 = Some (-3)%Z
    ∧ chapter_count_text item' = "Ch. -3".
Proof. do 2 eexists. split; [reflexivity|]. split; reflexivity. Qed.

(** C7, as stated, fails on a record whose count is [2^53]: the sum
    [2^53 + 1] is no JavaScript number and is rounded back to [2^53], so the
    count and the label stay as they were. *)
Lemma count_of_2_53_is_not_incremented :
  ¬ incrementsByOne store_limit 0 item_limit 1000 "now" "title".
Proof.
  intros H. destruct (H manga_limit) as (w' & item' & m' & Hr & Hm' & Hc & _);
    [reflexivity|].
  vm_compute in Hr. injection Hr as <- <-.
  vm_compute in Hm'. injection Hm' as <-. vm_compute in Hc. discriminate.
Qed.

Example count_of_2_53_after_increment :
  ∃ w' item',
    handleChapterUpdate store_limit 0 "+" 1 item_limit 1000 "now" "title"
    = Some (Returned w' item')
    ∧ readChapters <$> heap w' !! 0 = Some 9007199254740992%Z
    ∧ chapter_count_text item' = "Ch. 9007199254740992".
Proof. do 2 eexists. split; [reflexivity|]. split; reflexivity. Qed.

(** C7, amended. For a record whose count [n] has [-2^53 ≤ n < 2^53], so
    that [n] and [n + 1] are JavaScript numbers printed in plain digits,
    [handleChapterUpdate(record, "+", 1)] returns; afterwards the record's
    count is [n + 1], its [lastRead] is the current time, and the chapter
    label reads ["Ch. "] followed by the new count. *)
Theorem increment_updates_count_date_and_label (w : World) (manga : loc)
    (m : Manga) (item : MangaItem) (maxChapters : Z) (now sortOption : string) :
  heap w !! manga = Some m →
  (- Num.limit ≤ readChapters m < Num.limit)%Z →
  ∃ w' item' m',
    handleChapterUpdate w manga "+" 1 item maxChapters now sortOption
    = Some (Returned w' item')
    ∧ heap w' !! manga = Some m'
    ∧ readChapters m' = (readChapters m + 1)%Z
    ∧ lastRead m' = now
    ∧ chapter_count_text item' = "Ch. " +:+ Js.toString (readChapters m + 1)
    ∧ date_text item' = now.
Proof.
  intros Hm Hsafe. rewrite (handleChapterUpdate_plus _ _ m) by done.
  rewrite (Num_add_safe (readChapters m) 1) by (unfold Num.safe; lia).
  edestruct finishChapterUpdate_record as (w' & item' & -> & Hw' & _ & Hd & Hc).
  exists w', item'. eexists. split; [done|]. split; [exact Hw'|].
  repeat split; done.
Qed.

Lemma increment_updates_count_date_and_label_witness :
  ∃ w' item' m',
    handleChapterUpdate store_A 0 "+" 1 item_A 1000 "now" "chaptersRead"
    = Some (Returned w' item')
    ∧ heap w' !! 0 = Some m'
    ∧ readChapters m' = (readChapters manga_A + 1)%Z
    ∧ lastRead m' = "now"
    ∧ chapter_count_text item' = "Ch. " +:+ Js.toString (readChapters manga_A + 1)
    ∧ date_text item' = "now".
Proof.
  apply (increment_updates_count_date_and_label store_A 0 manga_A item_A 1000
           "now" "chaptersRead").
  - reflexivity.
  - vm_compute. split; [discriminate | reflexivity].
Defined.

(** C9. [handleChapterUpdate] returns or throws; it throws exactly when the
    operation is neither ["+"] nor ["-"], and then the world, the record and
    the list item are as they were. *)
Theorem throws_iff_operation_invalid (w : World) (manga : loc) (m : Manga)
    (operation : string) (amount : Z) (item : MangaItem) (maxChapters : Z)
    (now sortOption : string) :
  heap w !! manga = Some m →
  ∃ o,
    handleChapterUpdate w manga operation amount item maxChapters now sortOption
    = Some o
    ∧ ((∃ message w' item', o = Threw message w' item')
       ↔ (operation ≠ "+" ∧ operation ≠ "-"))
    ∧ (∀ message w' item', o = Threw message w' item' →
         w' = w ∧ item' = item ∧ heap w' !! manga = Some m).
Proof.
  intros Hm. unfold handleChapterUpdate. rewrite Hm. simpl.
  destruct (bool_decide_reflect (operation = "+")) as [Hplus|Hplus].
  { eexists. split; [done|]. unfold finishChapterUpdate. split.
    - split; [by intros (? & ? & ? & ?) | by intros [? _]].
    - intros ? ? ? ?. discriminate. }
  destruct (bool_decide_reflect (operation = "-")) as [Hminus|Hminus].
  { eexists. split; [done|]. unfold finishChapterUpdate. split.
    - split; [by intros (? & ? & ? & ?) | by intros [_ ?]].
    - intros ? ? ? ?. discriminate. }
  eexists. split; [done|]. split.
  - split; [done|]. intros _. eauto.
  - intros ? ? ? [= _ <- <-]. done.
Qed.

Lemma throws_iff_operation_invalid_witness :
  ∃ o,
    handleChapterUpdate store_A 0 "*" 1 item_A 1000 "now" "title" = Some o
    ∧ ((∃ message w' item', o = Threw message w' item')
       ↔ ("*" ≠ "+" ∧ "*" ≠ "-"))
    ∧ (∀ message w' item', o = Threw message w' item' →
         w' = store_A ∧ item' = item_A ∧ heap w' !! 0 = Some manga_A).
Proof.
  apply (throws_iff_operation_invalid store_A 0 manga_A "*" 1 item_A 1000
           "now" "title").
  reflexivity.
Defined.

Example invalid_operation_throws :
  handleChapterUpdate store_A 0 "*" 1 item_A 1000 "now" "title"
  = Some (Threw "Invalid operation. Use '+' or '-'." store_A item_A).
Proof. reflexivity. Qed.

(** ** [deleteManga] *)

Lemma filter_ne_notin (manga : loc) (ls : list loc) :
  manga ∉ ls → filter (λ m, m ≠ manga) ls = ls.
Proof.
  induction ls as [|l0 ls IH]; [done|].
  intros [Hne Hnotin]%not_elem_of_cons.
  rewrite filter_cons_True by congruence. f_equal. by apply IH.
Qed.

Lemma filter_ne_once (manga : loc) (ls : list loc) :
  manga ∈ ls → NoDup ls →
  ∃ l1 l2, ls = (l1 ++ manga :: l2)%list
           ∧ filter (λ m, m ≠ manga) ls = (l1 ++ l2)%list.
Proof.
  intros Hin Hnd. apply list_elem_of_split in Hin as (l1 & l2 & ->).
  exists l1, l2. split; [done|].
  apply NoDup_app in Hnd as (_ & Hl1 & [Hl2 _]%NoDup_cons).
  rewrite filter_app, filter_cons_False by (intros H; by apply H).
  f_equal; apply filter_ne_notin; [|done].
  intros Hx. apply (Hl1 manga Hx). by left.
Qed.

(** C10. [deleteManga] takes the given object, and only it, out of the list:
    the new list is the old one without that reference, in the old order; a
    record with the same title but another identity stays; no record is
    modified. *)
Theorem deleteManga_removes_that_record (w : World) (manga : loc) :
  manga ∈ mangaList w →
  let w' := deleteManga w manga in
  mangaList w' = filter (λ m, m ≠ manga) (mangaList w)
  ∧ (manga ∉ mangaList w')
  ∧ (∀ other, other ≠ manga → other ∈ mangaList w → other ∈ mangaList w')
  ∧ sublist (mangaList w') (mangaList w)
  ∧ heap w' = heap w
  ∧ (NoDup (mangaList w) →
     ∃ l1 l2, mangaList w = (l1 ++ manga :: l2)%list
              ∧ mangaList w' = (l1 ++ l2)%list).
Proof.
  intros Hin w'. subst w'. unfold deleteManga. simpl.
  split; [done|]. split.
  { intros [Hne _]%list_elem_of_filter. done. }
  split.
  { intros other Hne Hother. by apply list_elem_of_filter. }
  split; [apply sublist_filter|]. split; [done|].
  by apply filter_ne_once.
Qed.

Lemma deleteManga_removes_that_record_witness :
  let w' := deleteManga store_AA 0 in
  mangaList w' = filter (λ m, m ≠ 0) (mangaList store_AA)
  ∧ (0 ∉ mangaList w')
  ∧ (∀ other, other ≠ 0 → other ∈ mangaList store_AA → other ∈ mangaList w')
  ∧ sublist (mangaList w') (mangaList store_AA)
  ∧ heap w' = heap store_AA
  ∧ (NoDup (mangaList store_AA) →
     ∃ l1 l2, mangaList store_AA = (l1 ++ 0 :: l2)%list
              ∧ mangaList w' = (l1 ++ l2)%list).
Proof.
  apply (deleteManga_removes_that_record store_AA 0).
  simpl. apply list_elem_of_In. simpl. auto.
Defined.

(** Two records titled ["A"]: deleting the first object keeps the second. *)
Example deleteManga_by_identity :
  titles store_AA = ["A"; "A"]
  ∧ mangaList (deleteManga store_AA 0) = [1]
  ∧ records (deleteManga store_AA 0) = [manga_A'].
Proof. repeat split; reflexivity. Qed.

(** ** Submitting the form in edit mode *)

Lemma hasChanges_true (m : Manga) (d : MangaData) :
  hasChanges m d = true ↔ unchanged m d.
Proof.
  unfold hasChanges, unchanged.
  rewrite !andb_true_iff, !bool_decide_eq_true. tauto.
Qed.

Lemma hasChanges_false (m : Manga) (d : MangaData) :
  hasChanges m d = false ↔ ¬ unchanged m d.
Proof.
  rewrite <- hasChanges_true. destruct (hasChanges m d); split; congruence.
Qed.

(** C4, as stated, fails: the record ["A"] with link ["x"] is resubmitted with
    the link field changed to ["y"] while the tab is at ["z"]. Everything but
    the link is unchanged and the tab offers another link, yet the submission
    is saved, not turned into a reload prompt. *)
Lemma edit_with_changed_link_is_saved :
  ¬ editRule_exceptLink store_A 0 form_A_y tabs_z "now".
Proof.
  intros H.
  destruct (H manga_A (mkMangaData "" "A" "y" true 2 false)) as [Hprompt _];
    [reflexivity..|].
  assert (Hp : updateMangaDetails store_A 0 form_A_y tabs_z "now" tabs_z
               = Some (promptsReload store_A 0 "z")).
  { apply Hprompt. split; [by repeat split | discriminate]. }
  apply (f_equal (fmap trace)) in Hp. vm_compute in Hp. discriminate.
Qed.

(** The other side of the rule: an unchanged submission while the tab is at
    the record's own link only closes the dialogs; nothing is saved and
    [lastRead] stays. *)
Example unchanged_edit_same_link_closes :
  updateMangaDetails store_A 0 form_same tabs_x "now" tabs_x
  = Some (emit E_closeAllDialogs store_A).
Proof. reflexivity. Qed.

(** C4, amended. For an edit-mode submission that passes validation: when the
    submitted image, link, chapter count, title and favorite flag all equal
    the record's, nothing is saved, and the reload prompt is shown if the
    tab's link differs from the record's, the dialogs are closed if not; when
    any of the five differs, the link included, the data is merged into the
    record, [lastRead] refreshed, and the list saved and re-rendered. *)
Theorem edit_submission_rule (w : World) (manga : loc) (m : Manga)
    (form : FormFields) (tabs : list ChromeTab) (now : string)
    (tabsReload : list ChromeTab) (d : MangaData) :
  heap w !! manga = Some m →
  getMangaFormData w form tabs = Some d →
  validateMangaData w d (title m) = None →
  let url := info_url (getCurrentTabInfo tabsReload) in
  let result := updateMangaDetails w manga form tabs now tabsReload in
  (unchanged m d → url ≠ link m → result = Some (promptsReload w manga url))
  ∧ (unchanged m d → url = link m → result = Some (emit E_closeAllDialogs w))
  ∧ (¬ unchanged m d →
     result = Some (savesEdit w manga m d now)
     ∧ heap (savesEdit w manga m d now) !! manga = Some (assignData m d now)
     ∧ lastRead (assignData m d now) = now
     ∧ dayAdded (assignData m d now) = dayAdded m
     ∧ title (assignData m d now) = data_title d
     ∧ link (assignData m d now) = data_link d
     ∧ readChapters (assignData m d now) = data_readChapters d
     ∧ image (assignData m d now) = data_image d
     ∧ favorite (assignData m d now) = data_favorite d).
Proof.
  intros Hm Hd Hv url result. subst url result.
  unfold updateMangaDetails. rewrite Hd. cbn [mbind option_bind].
  rewrite Hm. cbn [mbind option_bind]. rewrite Hv.
  split; [|split].
  - intros Hu%hasChanges_true Hurl. rewrite Hu.
    unfold handleLinkReload. rewrite Hm. cbn [mbind option_bind].
    by rewrite bool_decide_eq_false_2 by congruence.
  - intros Hu%hasChanges_true Hurl. rewrite Hu.
    unfold handleLinkReload. rewrite Hm. cbn [mbind option_bind].
    by rewrite bool_decide_eq_true_2 by congruence.
  - intros Hu%hasChanges_false. rewrite Hu. split; [done|].
    split; [|done]. simpl. apply lookup_insert_eq.
Qed.

Lemma edit_submission_rule_witness :
  let d := mkMangaData "" "A" "y" true 2 false in
  let url := info_url (getCurrentTabInfo tabs_z) in
  let result := updateMangaDetails store_A 0 form_A_y tabs_z "now" tabs_z in
  (unchanged manga_A d → url ≠ link manga_A →
   result = Some (promptsReload store_A 0 url))
  ∧ (unchanged manga_A d → url = link manga_A →
     result = Some (emit E_closeAllDialogs store_A))
  ∧ (¬ unchanged manga_A d →
     result = Some (savesEdit store_A 0 manga_A d "now")
     ∧ heap (savesEdit store_A 0 manga_A d "now") !! 0
       = Some (assignData manga_A d "now")
     ∧ lastRead (assignData manga_A d "now") = "now"
     ∧ dayAdded (assignData manga_A d "now") = dayAdded manga_A
     ∧ title (assignData manga_A d "now") = data_title d
     ∧ link (assignData manga_A d "now") = data_link d
     ∧ readChapters (assignData manga_A d "now") = data_readChapters d
     ∧ image (assignData manga_A d "now") = data_image d
     ∧ favorite (assignData manga_A d "now") = data_favorite d).
Proof.
  apply (edit_submission_rule store_A 0 manga_A form_A_y tabs_z "now" tabs_z
           (mkMangaData "" "A" "y" true 2 false)); reflexivity.
Defined.

(** ** The title of a list item *)



Example title_of_20_characters_shown :
  shownTitle false manga_20 = Some "1234567890123456789...".
Proof. reflexivity. Qed.



(** The cut title of a plain title is plain: cutting adds no markup. *)
Lemma plain_cut_title (n : nat) (s : string) :
  Html.plain s = true → Html.plain (Js.substring0 n s +:+ "...") = true.
Proof.
  revert s. induction n as [|n IH]; intros [|c s]; simpl; try done.
  intros [Hc Hs]%andb_true_iff. rewrite Hc. by apply IH.
Qed.

(** ** Batched rendering *)

Lemma appends_app (evs1 evs2 : list RenderEvent) :
  appends (evs1 ++ evs2) = (appends evs1 ++ appends evs2)%list.
Proof. apply omap_app. Qed.

Lemma nth_js_of_nat {A} (l : list A) (c : nat) : nth_js l (Z.of_nat c) = l !! c.
Proof.
  unfold nth_js. destruct (Z.ltb_spec (Z.of_nat c) 0); [lia|].
  by rewrite Nat2Z.id.
Qed.

Lemma loadBatch_for_spec dark (inputList : list Manga) n c fragment :
  c + n ≤ length inputList →
  loadBatch_for dark inputList n (Z.of_nat c) fragment
  = Some (fragment ++ rendered dark (take n (drop c inputList)))%list.
Proof.
  revert c fragment. induction n as [|n IH]; intros c fragment Hlen; simpl.
  - unfold rendered. simpl. by rewrite app_nil_r.
  - rewrite nth_js_of_nat.
    destruct (lookup_lt_is_Some_2 inputList c) as [manga Hmanga]; [lia|].
    rewrite Hmanga. simpl.
    replace (Z.of_nat c + 1)%Z with (Z.of_nat (S c)) by lia.
    rewrite IH by lia. rewrite (drop_S _ _ _ Hmanga). simpl.
    by rewrite <- app_assoc.
Qed.

Lemma take_min_drop {A} (l : list A) (b c : nat) :
  take (Nat.min b (length l - c)) (drop c l) = take b (drop c l).
Proof.
  destruct (Nat.min_spec b (length l - c)) as [[_ ->]|[Hle ->]]; [done|].
  rewrite !take_ge; [done | rewrite length_drop; lia | by rewrite length_drop].
Qed.

(** One [loadBatch] call from a multiple of the batch size. *)
Lemma loadBatch_step dark inputList (batchSize : Z) j st :
  (1 ≤ batchSize)%Z →
  currentIndex st = Z.of_nat (j * Z.to_nat batchSize) →
  container st = rendered dark (take (j * Z.to_nat batchSize) inputList) →
  appends (log st) = batch dark inputList (Z.to_nat batchSize) <$> seq 0 j →
  head (log st) = Some R_clear →
  j = 0 ∨ j * Z.to_nat batchSize < length inputList →
  ∃ st', loadBatch dark inputList batchSize st = Some st'
         ∧ afterBatches dark inputList (Z.to_nat batchSize) (S j) st'.
Proof.
  intros Hb Hci Hcont Happ Hhead Hlt.
  set (b := Z.to_nat batchSize) in *.
  assert (Hbz : batchSize = Z.of_nat b) by lia.
  assert (Hle : j * b ≤ length inputList).
  { destruct Hlt as [->|Hlt]; simpl; lia. }
  unfold loadBatch. rewrite Hci.
  replace (Z.to_nat (Z.min (Z.of_nat (j * b) + batchSize)
                           (Z.of_nat (length inputList)) - Z.of_nat (j * b)))
    with (Nat.min b (length inputList - j * b)) by lia.
  rewrite loadBatch_for_spec by lia. cbn [mbind option_bind app].
  rewrite take_min_drop. eexists. split; [done|].
  unfold afterBatches. cbn [currentIndex container log scheduled].
  repeat split.
  - lia.
  - rewrite Hcont. unfold rendered. rewrite <- fmap_app, take_take_drop.
    do 2 f_equal. lia.
  - rewrite appends_app, Happ, seq_S, fmap_app. f_equal.
    by destruct (_ <? _)%Z.
  - destruct (log st); [done|]. done.
  - intros H%Z.ltb_lt. lia.
  - intros H. apply Z.ltb_lt. lia.
  - lia.
  - replace (S j - 1) with j by lia. destruct Hlt as [->|Hlt]; auto.
Qed.

Lemma loadBatch_afterBatches dark inputList (batchSize : Z) j st :
  (1 ≤ batchSize)%Z →
  afterBatches dark inputList (Z.to_nat batchSize) j st →
  j * Z.to_nat batchSize < length inputList →
  ∃ st', loadBatch dark inputList batchSize st = Some st'
         ∧ afterBatches dark inputList (Z.to_nat batchSize) (S j) st'.
Proof.
  intros Hb (Hci & Hcont & Happ & Hhead & _) Hlt.
  apply loadBatch_step; auto.
Qed.

Lemma loadMangas_afterBatches dark inputList (batchSize : Z) :
  (1 ≤ batchSize)%Z →
  ∃ st, loadMangas dark inputList batchSize = Some st
        ∧ afterBatches dark inputList (Z.to_nat batchSize) 1 st.
Proof.
  intros Hb. unfold loadMangas.
  destruct (loadBatch_step dark inputList batchSize 0
              (mkLoader 0 [] [R_clear] false) Hb)
    as (st & -> & Hci & Hcont & Happ & Hhead & Hrest); [done..|by left|].
  cbn [mbind option_bind]. eexists. split; [done|].
  unfold afterBatches. cbn [currentIndex container log scheduled].
  split; [done|]. split; [done|]. split.
  { rewrite appends_app. simpl. by rewrite app_nil_r. }
  split; [|done]. destruct (log st); [done|]. done.
Qed.

Lemma framesFrom_idle dark inputList batchSize frames st :
  scheduled st = false →
  framesFrom dark inputList batchSize frames st = Some st.
Proof.
  intros Hs. induction frames as [|k IH]; [done|]. simpl.
  unfold animationFrame. rewrite Hs. simpl. exact IH.
Qed.

Lemma framesFrom_add dark inputList batchSize k1 k2 st :
  framesFrom dark inputList batchSize (k1 + k2) st
  = framesFrom dark inputList batchSize k1 st
      ≫= framesFrom dark inputList batchSize k2.
Proof.
  revert st. induction k1 as [|k1 IH]; intros st; simpl; [done|].
  destruct (animationFrame dark inputList batchSize st) as [st'|]; simpl; [|done].
  apply IH.
Qed.

(** Enough frames finish the rendering. *)
Lemma framesFrom_afterBatches dark inputList (batchSize : Z) frames j st :
  (1 ≤ batchSize)%Z →
  afterBatches dark inputList (Z.to_nat batchSize) j st →
  length inputList ≤ (j + frames) * Z.to_nat batchSize →
  ∃ st' j', framesFrom dark inputList batchSize frames st = Some st'
            ∧ afterBatches dark inputList (Z.to_nat batchSize) j' st'
            ∧ scheduled st' = false.
Proof.
  intros Hb. revert j st. induction frames as [|k IH]; intros j st Hinv Hlen.
  - exists st, j. split; [done|]. split; [done|].
    destruct Hinv as (_ & _ & _ & _ & Hsched & _).
    destruct (scheduled st); [|done]. rewrite Nat.add_0_r in Hlen.
    assert (j * Z.to_nat batchSize < length inputList) by by apply Hsched.
    lia.
  - simpl. unfold animationFrame.
    destruct (scheduled st) eqn:Hs.
    + assert (Hlt : j * Z.to_nat batchSize < length inputList).
      { destruct Hinv as (_ & _ & _ & _ & Hsched & _). by apply Hsched. }
      destruct (loadBatch_afterBatches dark inputList batchSize j st Hb Hinv Hlt)
        as (st1 & -> & Hinv1).
      simpl. apply (IH (S j)); [done|]. lia.
    + simpl. exists st, j. split; [by apply framesFrom_idle|]. done.
Qed.

Lemma concat_batches dark (inputList : list Manga) b j :
  concat (batch dark inputList b <$> seq 0 j)
  = rendered dark (take (j * b) inputList).
Proof.
  induction j as [|j IH]; [done|].
  rewrite seq_S, fmap_app, concat_app, IH. simpl. rewrite app_nil_r.
  unfold batch, rendered. rewrite <- fmap_app, take_take_drop.
  do 2 f_equal. lia.
Qed.

Lemma batch_length dark (inputList : list Manga) b i :
  length (batch dark inputList b i) = Nat.min b (length inputList - i * b).
Proof. unfold batch, rendered. by rewrite length_fmap, length_take, length_drop. Qed.

Lemma lookup_batches dark (inputList : list Manga) b j i f :
  (batch dark inputList b <$> seq 0 j) !! i = Some f →
  i < j ∧ f = batch dark inputList b i.
Proof.
  rewrite list_lookup_fmap. intros H.
  destruct (seq 0 j !! i) as [i'|] eqn:E; simpl in H; [|done].
  apply lookup_seq in E as [-> Hi]. injection H as <-. done.
Qed.

(** A loader that is after [j] batches with nothing scheduled has rendered
    the list in batches. *)
Lemma afterBatches_batched dark inputList (batchSize : Z) j st :
  (1 ≤ batchSize)%Z →
  afterBatches dark inputList (Z.to_nat batchSize) j st →
  scheduled st = false →
  batched dark inputList batchSize st.
Proof.
  intros Hb (Hci & Hcont & Happ & Hhead & Hsched & Hj & Hlast) Hs.
  set (b := Z.to_nat batchSize) in *.
  assert (Hdone : length inputList ≤ j * b).
  { destruct (decide (j * b < length inputList)) as [Hlt|]; [|lia].
    apply Hsched in Hlt. congruence. }
  unfold batched. simpl. rewrite Happ.
  split; [done|]. split; [done|]. split.
  { rewrite concat_batches. by rewrite take_ge. }
  split.
  { rewrite Hcont. by rewrite take_ge. }
  rewrite length_fmap, length_seq. split.
  - intros i f [Hi ->]%lookup_batches HSi. rewrite batch_length.
    assert (S i * b ≤ (j - 1) * b) by (apply Nat.mul_le_mono_r; lia).
    destruct Hlast as [->|Hlast]; [lia|]. simpl in *. lia.
  - intros f Hf. destruct j as [|j]; [lia|].
    rewrite seq_S, fmap_app in Hf. simpl in Hf. rewrite last_snoc in Hf.
    injection Hf as <-. rewrite batch_length.
    replace (S j - 1) with j in Hlast by lia.
    assert (Hjb : j * b ≤ length inputList).
    { destruct Hlast as [Hj1|Hlast]; [|lia]. injection Hj1 as ->. simpl. lia. }
    simpl in Hdone. split; [|split].
    + rewrite Nat2Z.inj_min, Nat2Z.inj_sub by done. nia.
    + lia.
    + intros Hne Hnil. apply (f_equal length) in Hnil.
      rewrite batch_length in Hnil. simpl in Hnil.
      destruct Hlast as [Hj1|Hlast]; [|lia]. injection Hj1 as ->.
      destruct inputList; [done|]. simpl in *. lia.
Qed.

Lemma render_in_batches dark inputList (batchSize : Z) frames :
  (1 ≤ batchSize)%Z →
  length inputList ≤ (1 + frames) * Z.to_nat batchSize →
  ∃ st j, render dark inputList batchSize frames = Some st
          ∧ (∀ more, render dark inputList batchSize (frames + more) = Some st)
          ∧ afterBatches dark inputList (Z.to_nat batchSize) j st
          ∧ scheduled st = false.
Proof.
  intros Hb Hlen.
  destruct (loadMangas_afterBatches dark inputList batchSize Hb) as (st0 & H0 & Hinv0).
  destruct (framesFrom_afterBatches dark inputList batchSize frames 1 st0 Hb Hinv0 Hlen)
    as (st & j & Hrun & Hinv & Hs).
  exists st, j. unfold render. rewrite H0. simpl. split; [done|].
  split; [|done]. intros more. rewrite framesFrom_add, Hrun. simpl.
  by apply framesFrom_idle.
Qed.

(** With batch size 0 the index never advances: every frame appends an empty
    fragment and schedules the next one. *)
Lemma framesFrom_zero_batch dark inputList frames st :
  inputList ≠ [] → currentIndex st = 0%Z → container st = [] →
  scheduled st = true →
  ∃ st', framesFrom dark inputList 0 frames st = Some st'
         ∧ container st' = [] ∧ scheduled st' = true.
Proof.
  intros Hne. revert st. induction frames as [|k IH]; intros st Hci Hcont Hs.
  - by exists st.
  - simpl. unfold animationFrame, loadBatch. rewrite Hs, Hci, Hcont.
    assert (Hmore : (0 + 0 <? Z.of_nat (length inputList))%Z = true).
    { apply Z.ltb_lt. destruct inputList; [done|]. simpl. lia. }
    replace (Z.to_nat (Z.min (0 + 0) (Z.of_nat (length inputList)) - 0))
      with 0 by lia.
    simpl in *. rewrite Hmore. apply IH; done.
Qed.

(** C5, as stated, fails for the batch size 0: the one record of the list is
    never appended, whatever the number of frames. *)
Lemma batch_size_zero_never_renders : ¬ rendersInBatches false [manga_A] 0.
Proof.
  intros (frames & st & Hrender & _ & Hbatched).
  unfold render in Hrender.
  change (loadMangas false [manga_A] 0)
    with (Some (mkLoader 0 []
                  [R_clear; R_append []; R_requestAnimationFrame; R_handleBlur]
                  true)) in Hrender.
  simpl in Hrender.
  destruct (framesFrom_zero_batch false [manga_A] frames
              (mkLoader 0 []
                 [R_clear; R_append []; R_requestAnimationFrame; R_handleBlur]
                 true)) as (st' & Hst' & Hcont & _); [done..|].
  rewrite Hst' in Hrender. injection Hrender as <-.
  destruct Hbatched as (_ & _ & _ & Hc & _). rewrite Hcont in Hc. discriminate.
Qed.

(** C5, amended. For a batch size of at least 1, [loadMangas] clears the
    container and appends the records once each, in list order, in batches:
    every append event but the last inserts [batchSize] records and the last
    one the remainder, after which nothing is scheduled. 7 records with batch
    size 3 give, after two frames and for good, the three append events of
    sizes 3, 3 and 1. *)
Theorem loadMangas_appends_in_batches (dark : bool) (inputList : list Manga)
    (batchSize : Z) :
  (1 ≤ batchSize)%Z →
  rendersInBatches dark inputList batchSize
  ∧ (length inputList = 7 → batchSize = 3%Z →
     ∃ st, render dark inputList batchSize 2 = Some st
           ∧ (∀ more, render dark inputList batchSize (2 + more) = Some st)
           ∧ length <$> appends (log st) = [3; 3; 1]
           ∧ concat (appends (log st)) = rendered dark inputList).
Proof.
  intros Hb. split.
  - destruct (render_in_batches dark inputList batchSize (length inputList) Hb)
      as (st & j & Hrender & Hstable & Hinv & Hs); [nia|].
    exists (length inputList), st. split; [done|]. split; [done|].
    by apply (afterBatches_batched dark inputList batchSize j).
  - intros Hlen ->.
    destruct (render_in_batches dark inputList 3 2) as
      (st & j & Hrender & Hstable & Hinv & Hs); [lia | rewrite Hlen; simpl; lia |].
    exists st. split; [done|]. split; [done|].
    pose proof (afterBatches_batched dark inputList 3 j st ltac:(lia) Hinv Hs)
      as (_ & _ & Hconcat & _).
    split; [|done].
    destruct Hinv as (_ & _ & Happ & _ & Hsched & Hj & Hlast).
    change (Z.to_nat 3) with 3 in *. rewrite Hlen in *.
    assert (j = 3) as ->.
    { destruct (decide (j * 3 < 7)) as [Hlt|Hge].
      - apply Hsched in Hlt. congruence.
      - lia. }
    rewrite Happ. simpl. by rewrite !batch_length, Hlen.
Qed.

Lemma loadMangas_appends_in_batches_witness :
  rendersInBatches false seven 3
  ∧ (length seven = 7 → 3%Z = 3%Z →
     ∃ st, render false seven 3 2 = Some st
           ∧ (∀ more, render false seven 3 (2 + more) = Some st)
           ∧ length <$> appends (log st) = [3; 3; 1]
           ∧ concat (appends (log st)) = rendered false seven).
Proof. apply (loadMangas_appends_in_batches false seven 3). lia. Defined.

(** Rendering 7 records with the default batch size. *)
Example seven_records_default_batch :
  ∃ st, loadMangas_default false seven ≫= framesFrom false seven 3 2 = Some st
        ∧ length <$> appends (log st) = [3; 3; 1]
        ∧ concat (appends (log st)) = rendered false seven
        ∧ scheduled st = false.
Proof. eexists. split; [reflexivity|]. repeat split; reflexivity. Qed.

(** * Further properties of the code *)

(** ** What [getMangaFormData] and [addNewManga] produce *)

Lemma getMangaFormData_fields w form tabs d :
  getMangaFormData w form tabs = Some d →
  data_image d = Js.trim (field_image form)
  ∧ data_link d = Js.or_else (Js.trim (field_link form))
                             (info_url (getCurrentTabInfo tabs))
  ∧ data_isImageWorking d = true
  ∧ data_favorite d = field_favorite form
  ∧ data_readChapters d
    = match Js.parseInt (Js.trim (field_readChapters form)) with
      | Some n => if (n <? 0)%Z then 0%Z else n
      | None => 0%Z
      end.
Proof.
  unfold getMangaFormData.
  destruct (if Js.truthy _ then _ else _) as [t|]; simpl; [|done].
  intros [= <-]. done.
Qed.

Lemma records_alloc h ls tr tr' l m :
  allocated (mkWorld h ls tr) → h !! l = None →
  records (mkWorld (<[l := m]> h) (ls ++ [l])%list tr')
  = (records (mkWorld h ls tr) ++ [m])%list.
Proof.
  intros Halloc Hl. unfold records. simpl.
  rewrite omap_app. simpl. rewrite lookup_insert_eq. f_equal.
  unfold allocated in Halloc. simpl in Halloc.
  induction ls as [|l0 ls IH]; [done|].
  apply Forall_cons in Halloc as [[m0 Hm0] Halloc].
  assert (l ≠ l0) by congruence.
  unfold omap in *. simpl. rewrite lookup_insert_ne by done.
  rewrite Hm0. f_equal. by apply IH.
Qed.

(** X2. [addNewManga] has three outcomes, decided by the submitted title
    alone: an empty title is turned down with [modal-title-required], a title
    some record has with [modal-unique-title-required], the store staying as
    it was; any other submission appends exactly one record at the end of the
    list, carrying the submitted data with [dayAdded] and [lastRead] set to
    the current time, and leaves the records already there untouched. *)
Theorem addNewManga_outcomes (w : World) (form : FormFields)
    (tabs : list ChromeTab) (now : string) (d : MangaData) :
  allocated w →
  getMangaFormData w form tabs = Some d →
  let newManga := mkManga (data_image d) (data_title d) (data_link d) true
                          (data_readChapters d) (data_favorite d) now now in
  (data_title d = "" →
   addNewManga w form tabs now = Some (emit (E_showModal "modal-title-required") w))
  ∧ (data_title d ∈ titles w →
     addNewManga w form tabs now
     = Some (emit (E_showModal "modal-unique-title-required") w))
  ∧ (data_title d ≠ "" → data_title d ∉ titles w →
     ∃ w', addNewManga w form tabs now = Some w'
           ∧ mangaList w' = (mangaList w ++ [newLoc w])%list
           ∧ (newLoc w ∉ mangaList w)
           ∧ records w' = (records w ++ [newManga])%list
           ∧ (∀ l, is_Some (heap w !! l) → heap w' !! l = heap w !! l)).
Proof.
  intros Halloc Hd newManga. subst newManga.
  pose proof (getMangaFormData_fields _ _ _ _ Hd) as (_ & _ & Hiw & _).
  split; [|split].
  - intros Hempty. unfold addNewManga, validateMangaData. rewrite Hd. simpl.
    apply truthy_false in Hempty. by rewrite Hempty.
  - intros Hin. apply (addNewManga_rejects _ _ _ _ d); [done|].
    by apply isNameUsed_true.
  - intros Hne Hfree. unfold addNewManga, validateMangaData. rewrite Hd. simpl.
    apply truthy_true in Hne. rewrite Hne. simpl.
    apply isNameUsed_false in Hfree. rewrite Hfree, andb_false_r.
    eexists. split; [done|]. simpl.
    pose proof (newLoc_fresh w) as Hfresh.
    assert (Hnotin : newLoc w ∉ mangaList w).
    { intros Hin. unfold allocated in Halloc. rewrite Forall_forall in Halloc.
      destruct (Halloc _ Hin) as [? ?]. congruence. }
    split; [done|]. split; [done|]. split.
    + destruct w as [h ls tr]. simpl in *. rewrite Hiw.
      by apply records_alloc.
    + intros l [m Hm]. apply lookup_insert_ne. congruence.
Qed.

Lemma addNewManga_outcomes_witness :
  let d := mkMangaData "" "C" "https://a/" true 3 false in
  let newManga := mkManga (data_image d) (data_title d) (data_link d) true
                          (data_readChapters d) (data_favorite d) "now" "now" in
  (data_title d = "" →
   addNewManga store_A form_C tabs_A "now"
   = Some (emit (E_showModal "modal-title-required") store_A))
  ∧ (data_title d ∈ titles store_A →
     addNewManga store_A form_C tabs_A "now"
     = Some (emit (E_showModal "modal-unique-title-required") store_A))
  ∧ (data_title d ≠ "" → data_title d ∉ titles store_A →
     ∃ w', addNewManga store_A form_C tabs_A "now" = Some w'
           ∧ mangaList w' = (mangaList store_A ++ [newLoc store_A])%list
           ∧ (newLoc store_A ∉ mangaList store_A)
           ∧ records w' = (records store_A ++ [newManga])%list
           ∧ (∀ l, is_Some (heap store_A !! l) →
                   heap w' !! l = heap store_A !! l)).
Proof.
  apply (addNewManga_outcomes store_A form_C tabs_A "now"
           (mkMangaData "" "C" "https://a/" true 3 false)).
  - repeat constructor. vm_compute. eauto.
  - reflexivity.
Defined.

Lemma generateUniqueTitle_nonempty w base r :
  generateUniqueTitle w base = Some r → base ≠ "" → r ≠ "".
Proof.
  unfold generateUniqueTitle. destruct (isNameUsed w base); simpl.
  - intros H%generateUniqueTitle_loop_Some Hne.
    destruct H as (n & _ & -> & _). unfold suffixed.
    destruct base; [done|]. done.
  - by intros [= <-].
Qed.

Lemma getCurrentTabInfo_title_nonempty tab tabs :
  info_title (getCurrentTabInfo (tab :: tabs)) ≠ "".
Proof.
  simpl. unfold Js.or_else.
  destruct (Js.truthy (tab_title tab)) eqn:E; [by apply truthy_true|done].
Qed.

(** X3. With an active tab, a submission that leaves the title field empty is
    never turned down: the title taken from the tab (["Error"] when the tab
    has none) is made unique first, so the record is appended. *)
Theorem autofilled_add_is_accepted (w : World) (form : FormFields)
    (tab : ChromeTab) (tabs : list ChromeTab) (now : string) :
  Js.trim (field_title form) = "" →
  ∃ w' t,
    addNewManga w form (tab :: tabs) now = Some w'
    ∧ generateUniqueTitle w (Js.or_else (tab_title tab) "Error") = Some t
    ∧ t ≠ "" ∧ (t ∉ titles w)
    ∧ mangaList w' = (mangaList w ++ [newLoc w])%list
    ∧ title <$> heap w' !! newLoc w = Some t.
Proof.
  intros Hempty.
  destruct (getMangaFormData_total w form (tab :: tabs)) as [d Hd].
  destruct (getMangaFormData_title _ _ _ _ Hd) as [[Hne _]|[_ Hgen]]; [done|].
  pose proof (generateUniqueTitle_free _ _ _ Hgen) as Hfree.
  pose proof (generateUniqueTitle_nonempty _ _ _ Hgen
                (getCurrentTabInfo_title_nonempty tab tabs)) as Hne.
  unfold addNewManga, validateMangaData. rewrite Hd. simpl.
  apply truthy_true in Hne as Htruthy. rewrite Htruthy, Hfree, andb_false_r.
  simpl. eexists _, (data_title d). split; [done|]. split; [exact Hgen|].
  split; [done|]. split; [by apply isNameUsed_false|]. split; [done|].
  simpl. by rewrite lookup_insert_eq.
Qed.

Lemma autofilled_add_is_accepted_witness :
  ∃ w' t,
    addNewManga store_A_A1 form_empty (mkChromeTab "A" None :: []) "now" = Some w'
    ∧ generateUniqueTitle store_A_A1 (Js.or_else (tab_title (mkChromeTab "A" None)) "Error")
      = Some t
    ∧ t ≠ "" ∧ (t ∉ titles store_A_A1)
    ∧ mangaList w' = (mangaList store_A_A1 ++ [newLoc store_A_A1])%list
    ∧ title <$> heap w' !! newLoc store_A_A1 = Some t.
Proof.
  apply (autofilled_add_is_accepted store_A_A1 form_empty (mkChromeTab "A" None) []
           "now").
  reflexivity.
Defined.

(** X4. In edit mode, when no record carries the title the form remembers,
    the submission changes nothing: only the error is logged. *)
Theorem edit_of_missing_record_changes_nothing (w : World) (t : string)
    (form : FormFields) (tabs : list ChromeTab) (now : string)
    (tabsReload : list ChromeTab) :
  t ≠ "" → t ∉ titles w →
  handleFormSubmission w (mkDataset (Some "true") (Some t)) form tabs now tabsReload
  = Some (emit (E_consoleError "Manga not found for editing") w).
Proof.
  intros Hne Hnotin. unfold handleFormSubmission. simpl.
  apply truthy_true in Hne. rewrite Hne. simpl.
  destruct (findByTitle w t) as [l|] eqn:F; [|done].
  apply findByTitle_Some in F as (Hl & m & Hm & Ht).
  exfalso. apply Hnotin, elem_of_titles. eauto.
Qed.

Lemma edit_of_missing_record_changes_nothing_witness :
  handleFormSubmission store_A (mkDataset (Some "true") (Some "B")) form_A_x [] "now" []
  = Some (emit (E_consoleError "Manga not found for editing") store_A).
Proof.
  apply (edit_of_missing_record_changes_nothing store_A "B" form_A_x [] "now" []).
  - discriminate.
  - apply isNameUsed_false. reflexivity.
Defined.

(** ** The chapter counter, in full *)

Lemma Num_parseInt_amount (amount : Z) :
  Num.or_else (Num.parseInt amount) 1 = if (amount =? 0)%Z then 1%Z else amount.
Proof. apply Num_parseInt_or_else. Qed.

Lemma finishChapterUpdate_eq w manga m item now sortOption :
  finishChapterUpdate w manga m item now sortOption
  = Returned
      ((if bool_decide (sortOption = "chaptersRead")
        then emits [E_saveMangas; E_loadFilteredMangas] else emit E_saveMangas)
         (store manga (setLastRead now m) w))
      (setChapterCountText ("Ch. " +:+ Js.toString (readChapters m))
         (setDateText now item)).
Proof.
  unfold finishChapterUpdate. case_bool_decide; [|done].
  unfold emit, emits, store. simpl. by rewrite <- app_assoc.
Qed.

Lemma handleChapterUpdate_store (w : World) (manga : loc) (m : Manga)
    (operation : string) (amount : Z) (item : MangaItem) (maxChapters : Z)
    (now sortOption : string) :
  heap w !! manga = Some m →
  operation = "+" ∨ operation = "-" →
  let amount' := if (amount =? 0)%Z then 1%Z else amount in
  let count :=
    if bool_decide (operation = "+") then Num.add (readChapters m) amount'
    else if (readChapters m <=? 0)%Z then 0%Z
    else Num.sub (readChapters m) amount' in
  ∃ w' item',
    handleChapterUpdate w manga operation amount item maxChapters now sortOption
    = Some (Returned w' item')
    ∧ heap w' = <[manga := setLastRead now (setReadChapters count m)]> (heap w)
    ∧ mangaList w' = mangaList w.
Proof.
  intros Hm Hop amount' count. subst amount' count.
  unfold handleChapterUpdate. rewrite Hm. cbn [mbind option_bind].
  rewrite Num_parseInt_amount, Num_parseInt_or_0.
  set (a := if (amount =? 0)%Z then 1%Z else amount).
  destruct Hop as [-> | ->].
  - rewrite !bool_decide_eq_true_2 by done. rewrite finishChapterUpdate_eq.
    do 2 eexists. split; [done|].
    by destruct (Num.add (readChapters m) a >? maxChapters)%Z; case_bool_decide.
  - rewrite bool_decide_eq_false_2 by done.
    rewrite !bool_decide_eq_true_2 by done. rewrite finishChapterUpdate_eq.
    do 2 eexists. split; [done|].
    by destruct (readChapters m <=? 0)%Z; case_bool_decide.
Qed.

(** X5. What [handleChapterUpdate] does to the store, for ["+"] and ["-"],
    a count and an amount of magnitude at most [2^53]: an amount of 0 counts
    as 1; ["+"] adds the amount; ["-"] sets a count that is zero or below to
    0 and otherwise subtracts the amount; the sum and the difference are
    rounded to a double, which changes them only beyond [2^53]; the record's
    [lastRead] becomes the current time and its other fields stay; the list
    and every other object stay as they were; [saveMangas] is called once,
    [loadFilteredMangas] exactly when the list is sorted by chapters, and
    [handleMaxChapters] exactly when ["+"] passes [getMaxChapters()]. *)
Theorem handleChapterUpdate_effect (w : World) (manga : loc) (m : Manga)
    (operation : string) (amount : Z) (item : MangaItem) (maxChapters : Z)
    (now sortOption : string) :
  heap w !! manga = Some m →
  Num.safe (readChapters m) → Num.safe amount →
  operation = "+" ∨ operation = "-" →
  let amount' := if (amount =? 0)%Z then 1%Z else amount in
  let count :=
    if bool_decide (operation = "+") then Num.add (readChapters m) amount'
    else if (readChapters m <=? 0)%Z then 0%Z
    else Num.sub (readChapters m) amount' in
  ∃ w' item',
    handleChapterUpdate w manga operation amount item maxChapters now sortOption
    = Some (Returned w' item')
    ∧ heap w' = <[manga := setLastRead now (setReadChapters count m)]> (heap w)
    ∧ mangaList w' = mangaList w
    ∧ (∀ l, l ≠ manga → heap w' !! l = heap w !! l)
    ∧ (∃ warned,
         trace w'
         = (trace w ++ warned ++ E_saveMangas ::
              (if bool_decide (sortOption = "chaptersRead")
               then [E_loadFilteredMangas] else []))%list
         ∧ warned
           = if (bool_decide (operation = "+")
                 && (Num.add (readChapters m) amount' >? maxChapters)%Z)%bool
             then [E_handleMaxChapters (Num.add (readChapters m) amount')]
             else [])
    ∧ (Num.safe (readChapters m + amount') →
       Num.add (readChapters m) amount' = (readChapters m + amount')%Z)
    ∧ (Num.safe (readChapters m - amount') →
       Num.sub (readChapters m) amount' = (readChapters m - amount')%Z).
Proof.
  intros Hm _ _ Hop amount' count. subst amount' count.
  unfold handleChapterUpdate. rewrite Hm. cbn [mbind option_bind].
  rewrite Num_parseInt_amount, Num_parseInt_or_0.
  set (a := if (amount =? 0)%Z then 1%Z else amount).
  destruct Hop as [-> | ->].
  - rewrite !bool_decide_eq_true_2 by done. rewrite finishChapterUpdate_eq.
    do 2 eexists. split; [done|].
    destruct (Num.add (readChapters m) a >? maxChapters)%Z;
      case_bool_decide; simpl; (split; [done|]); (split; [done|]);
      (split; [by intros l Hl; rewrite lookup_insert_ne|]);
      (split; [|split; [apply Num_add_safe | apply Num_sub_safe]]);
      eexists; (split; [|done]); simpl; by rewrite <- ?app_assoc.
  - rewrite bool_decide_eq_false_2 by done.
    rewrite !bool_decide_eq_true_2 by done. rewrite finishChapterUpdate_eq.
    do 2 eexists. split; [done|].
    destruct (readChapters m <=? 0)%Z;
      case_bool_decide; simpl; (split; [done|]); (split; [done|]);
      (split; [by intros l Hl; rewrite lookup_insert_ne|]);
      (split; [|split; [apply Num_add_safe | apply Num_sub_safe]]);
      eexists; (split; [|done]); simpl; by rewrite <- ?app_assoc.
Qed.

Lemma handleChapterUpdate_effect_witness :
  let amount' := if (0 =? 0)%Z then 1%Z else 0%Z in
  let count :=
    if bool_decide ("+" = "+") then Num.add (readChapters manga_A) amount'
    else if (readChapters manga_A <=? 0)%Z then 0%Z
    else Num.sub (readChapters manga_A) amount' in
  ∃ w' item',
    handleChapterUpdate store_AB 0 "+" 0 item_A 2 "now" "chaptersRead"
    = Some (Returned w' item')
    ∧ heap w' = <[0 := setLastRead "now" (setReadChapters count manga_A)]> (heap store_AB)
    ∧ mangaList w' = mangaList store_AB
    ∧ (∀ l, l ≠ 0 → heap w' !! l = heap store_AB !! l)
    ∧ (∃ warned,
         trace w'
         = (trace store_AB ++ warned ++ E_saveMangas ::
              (if bool_decide ("chaptersRead" = "chaptersRead")
               then [E_loadFilteredMangas] else []))%list
         ∧ warned
           = if (bool_decide ("+" = "+")
                 && (Num.add (readChapters manga_A) amount' >? 2)%Z)%bool
             then [E_handleMaxChapters (Num.add (readChapters manga_A) amount')]
             else [])
    ∧ (Num.safe (readChapters manga_A + amount') →
       Num.add (readChapters manga_A) amount' = (readChapters manga_A + amount')%Z)
    ∧ (Num.safe (readChapters manga_A - amount') →
       Num.sub (readChapters manga_A) amount' = (readChapters manga_A - amount')%Z).
Proof.
  apply (handleChapterUpdate_effect store_AB 0 manga_A "+" 0 item_A 2 "now"
           "chaptersRead").
  - reflexivity.
  - vm_compute. split; discriminate.
  - vm_compute. split; discriminate.
  - by left.
Defined.

(** X6. A decrement of a count between 0 and [2^53] by an amount of
    magnitude at most [2^53] leaves a count that is not negative exactly
    when the count was 0 or the amount (1 for an amount of 0) does not
    exceed it. *)
Theorem decrement_nonnegative_iff (w : World) (manga : loc) (m : Manga)
    (amount : Z) (item : MangaItem) (maxChapters : Z) (now sortOption : string) :
  heap w !! manga = Some m →
  (0 ≤ readChapters m ≤ Num.limit)%Z →
  Num.safe amount →
  ∃ w' item' m',
    handleChapterUpdate w manga "-" amount item maxChapters now sortOption
    = Some (Returned w' item')
    ∧ heap w' !! manga = Some m'
    ∧ ((0 ≤ readChapters m')%Z
       ↔ readChapters m = 0%Z
         ∨ ((if (amount =? 0)%Z then 1 else amount) ≤ readChapters m)%Z).
Proof.
  intros Hm Hpos _.
  destruct (handleChapterUpdate_store w manga m "-" amount item maxChapters now
              sortOption Hm ltac:(by right))
    as (w' & item' & -> & Hheap & _).
  exists w', item'. eexists. split; [done|]. rewrite Hheap, lookup_insert_eq.
  split; [done|]. rewrite bool_decide_eq_false_2 by done.
  cbn [readChapters setLastRead setReadChapters].
  destruct (Z.leb_spec (readChapters m) 0); [destruct (amount =? 0)%Z; lia|].
  unfold Num.sub. rewrite Num_round_nonneg. destruct (amount =? 0)%Z; lia.
Qed.

Lemma decrement_nonnegative_iff_witness :
  ∃ w' item' m',
    handleChapterUpdate store_A 0 "-" 2 item_A 1000 "now" "title"
    = Some (Returned w' item')
    ∧ heap w' !! 0 = Some m'
    ∧ ((0 ≤ readChapters m')%Z
       ↔ readChapters manga_A = 0%Z
         ∨ ((if (2 =? 0)%Z then 1 else 2) ≤ readChapters manga_A)%Z).
Proof.
  apply (decrement_nonnegative_iff store_A 0 manga_A 2 item_A 1000 "now" "title").
  - reflexivity.
  - vm_compute. split; discriminate.
  - vm_compute. split; discriminate.
Defined.

(** X7. The list item [handleChapterUpdate] patches in place is the item a
    fresh [createMangaElement] of the updated record gives: the incremental
    update of the date and of the chapter label agrees with a re-render. *)
Theorem chapter_update_agrees_with_rerender (w : World) (manga : loc) (m : Manga)
    (operation : string) (amount : Z) (dark : bool) (maxChapters : Z)
    (now sortOption : string) :
  heap w !! manga = Some m →
  operation = "+" ∨ operation = "-" →
  ∃ w' item' m',
    handleChapterUpdate w manga operation amount (createMangaElement dark m)
                        maxChapters now sortOption
    = Some (Returned w' item')
    ∧ heap w' !! manga = Some m'
    ∧ item' = createMangaElement dark m'.
Proof.
  intros Hm Hop.
  destruct (handleChapterUpdate_store w manga m operation amount
              (createMangaElement dark m) maxChapters now sortOption Hm Hop)
    as (w' & item' & Heq & Hheap & _).
  exists w', item'. eexists. split; [done|]. rewrite Hheap, lookup_insert_eq.
  split; [done|].
  unfold handleChapterUpdate in Heq. rewrite Hm in Heq.
  cbn [mbind option_bind] in Heq.
  rewrite Num_parseInt_amount, Num_parseInt_or_0 in Heq.
  destruct Hop as [-> | ->].
  - rewrite !bool_decide_eq_true_2 in Heq |- * by done.
    rewrite finishChapterUpdate_eq in Heq. by injection Heq as _ <-.
  - rewrite bool_decide_eq_false_2 in Heq |- * by done.
    rewrite !bool_decide_eq_true_2 in Heq by done.
    rewrite finishChapterUpdate_eq in Heq. injection Heq as _ <-.
    by destruct (readChapters m <=? 0)%Z.
Qed.

Lemma chapter_update_agrees_with_rerender_witness :
  ∃ w' item' m',
    handleChapterUpdate store_A 0 "-" 1 (createMangaElement true manga_A)
                        1000 "now" "title"
    = Some (Returned w' item')
    ∧ heap w' !! 0 = Some m'
    ∧ item' = createMangaElement true m'.
Proof.
  apply (chapter_update_agrees_with_rerender store_A 0 manga_A "-" 1 true 1000
           "now" "title").
  - reflexivity.
  - by right.
Defined.

(** ** The favorite toggle *)

Lemma elem_of_classList_add (x c : string) (classes : list string) :
  x ∈ classList_add c classes ↔ x = c ∨ x ∈ classes.
Proof.
  unfold classList_add. case_bool_decide.
  - split; [auto|]. intros [->|?]; done.
  - rewrite elem_of_app, list_elem_of_singleton. tauto.
Qed.

Lemma elem_of_classList_remove (x c : string) (classes : list string) :
  x ∈ classList_remove c classes ↔ x ≠ c ∧ x ∈ classes.
Proof. unfold classList_remove. by rewrite list_elem_of_filter. Qed.

Lemma setFavorite_twice (m : Manga) :
  setFavorite (negb (favorite (setFavorite (negb (favorite m)) m)))
              (setFavorite (negb (favorite m)) m) = m.
Proof. destruct m as [? ? ? ? ? []]; reflexivity. Qed.

(** X8. [handleFavoriteToggle] flips the record's [favorite] flag and nothing
    else in the store. Of the four star classes the element afterwards has
    exactly the two a fresh [createMangaElement] of the updated record gives
    its star; its other classes stay. A second toggle puts the record back. *)
Theorem favorite_toggle_effect (w : World) (manga : loc) (m : Manga)
    (classes : list string) (dark : bool) :
  heap w !! manga = Some m →
  let m' := setFavorite (negb (favorite m)) m in
  let star := createMangaElement dark m' in
  ∃ w' classes',
    handleFavoriteToggle w manga classes = Some (w', classes')
    ∧ heap w' = <[manga := m']> (heap w)
    ∧ mangaList w' = mangaList w
    ∧ trace w' = (trace w ++ [E_saveMangas])%list
    ∧ (∀ c, c ∈ ["fill-yellow-400"; "fill-transparent";
                 "hover:fill-light-red"; "hover:fill-yellow-400"] →
            (c ∈ classes' ↔ c = fav_fill_class star ∨ c = fav_hover_class star))
    ∧ (∀ c, c ∉ ["fill-yellow-400"; "fill-transparent";
                 "hover:fill-light-red"; "hover:fill-yellow-400"] →
            (c ∈ classes' ↔ c ∈ classes))
    ∧ (∃ w'' classes'',
         handleFavoriteToggle w' manga classes' = Some (w'', classes'')
         ∧ heap w'' !! manga = Some m).
Proof.
  intros Hm m' star. subst m' star.
  unfold handleFavoriteToggle. rewrite Hm. cbn [mbind option_bind].
  do 2 eexists. split; [done|]. split; [done|]. split; [done|].
  split; [done|]. split; [|split].
  - intros c Hc. cbn [createMangaElement fav_fill_class fav_hover_class
                      favorite setFavorite].
    destruct (negb (favorite m));
      rewrite ?elem_of_classList_add, ?elem_of_classList_remove,
              ?elem_of_classList_add, ?elem_of_classList_remove;
      rewrite ?elem_of_classList_add, ?elem_of_classList_remove;
      repeat (apply elem_of_cons in Hc as [->|Hc]); try (by inv Hc);
      split; intros H; intuition (try discriminate; auto).
  - intros c Hc. cbn [favorite setFavorite].
    assert (c ≠ "fill-yellow-400" ∧ c ≠ "fill-transparent"
            ∧ c ≠ "hover:fill-light-red" ∧ c ≠ "hover:fill-yellow-400")
      as (H1 & H2 & H3 & H4).
    { repeat split; intros ->; apply Hc; set_solver. }
    destruct (negb (favorite m));
      rewrite ?elem_of_classList_add, ?elem_of_classList_remove,
              ?elem_of_classList_add, ?elem_of_classList_remove;
      rewrite ?elem_of_classList_add, ?elem_of_classList_remove;
      tauto.
  - cbn [heap emit store]. rewrite lookup_insert_eq. cbn [mbind option_bind].
    do 2 eexists. split; [done|]. cbn [heap emit store].
    by rewrite lookup_insert_eq, setFavorite_twice.
Qed.

Lemma favorite_toggle_effect_witness :
  let m' := setFavorite (negb (favorite manga_A)) manga_A in
  let star := createMangaElement false m' in
  let classes := ["lucide"; "hover:fill-yellow-400"; "h-4"; "fill-transparent"] in
  ∃ w' classes',
    handleFavoriteToggle store_AB 0 classes = Some (w', classes')
    ∧ heap w' = <[0 := m']> (heap store_AB)
    ∧ mangaList w' = mangaList store_AB
    ∧ trace w' = (trace store_AB ++ [E_saveMangas])%list
    ∧ (∀ c, c ∈ ["fill-yellow-400"; "fill-transparent";
                 "hover:fill-light-red"; "hover:fill-yellow-400"] →
            (c ∈ classes' ↔ c = fav_fill_class star ∨ c = fav_hover_class star))
    ∧ (∀ c, c ∉ ["fill-yellow-400"; "fill-transparent";
                 "hover:fill-light-red"; "hover:fill-yellow-400"] →
            (c ∈ classes' ↔ c ∈ classes))
    ∧ (∃ w'' classes'',
         handleFavoriteToggle w' 0 classes' = Some (w'', classes'')
         ∧ heap w'' !! 0 = Some manga_A).
Proof.
  apply (favorite_toggle_effect store_AB 0 manga_A
           ["lucide"; "hover:fill-yellow-400"; "h-4"; "fill-transparent"] false).
  reflexivity.
Defined.

Example favorite_toggle_classes :
  snd <$> handleFavoriteToggle store_AB 0
            ["lucide"; "hover:fill-yellow-400"; "h-4"; "fill-transparent"]
  = Some ["lucide"; "h-4"; "fill-yellow-400"; "hover:fill-light-red"].
Proof. reflexivity. Qed.

(** ** The link reload dialog *)

Lemma assignLink_same (m : Manga) : assignLink m (link m) = m.
Proof. by destruct m. Qed.

Lemma assignLink_assignLink (m : Manga) (u v : string) :
  assignLink (assignLink m u) v = assignLink m v.
Proof. done. Qed.

Lemma runConfirmReload_spec (listeners : list (loc * string)) (w : World) :
  Forall (λ b, is_Some (heap w !! b.1)) listeners →
  ∃ w',
    runConfirmReload w listeners = Some w'
    ∧ mangaList w' = mangaList w
    ∧ titles w' = titles w
    ∧ ∀ l, heap w' !! l
           = (λ m, assignLink m (reloadedLink listeners l (link m))) <$> heap w !! l.
Proof.
  revert w. induction listeners as [|[manga url] ls IH]; intros w Hb.
  - exists w. repeat split; try done. intros l. simpl.
    destruct (heap w !! l) as [m|]; [|done]. simpl. by rewrite assignLink_same.
  - apply Forall_cons in Hb as [[m Hm] Hb]. simpl in Hm.
    cbn [runConfirmReload]. unfold confirmReload. rewrite Hm.
    cbn [mbind option_bind].
    case_bool_decide as Hlink.
    + destruct (IH w Hb) as (w' & Hrun & Hl & Ht & Hh).
      exists w'. repeat split; try done.
      intros l. rewrite Hh. unfold reloadedLink. cbn [foldl fst snd].
      destruct (heap w !! l) as [m0|] eqn:Hm0; [|done]. simpl.
      case_bool_decide as Heq; [|done].
      subst l. rewrite Hm in Hm0. injection Hm0 as <-. by rewrite Hlink.
    + set (w1 := emits _ _).
      destruct (IH w1) as (w' & Hrun & Hl & Ht & Hh).
      { eapply Forall_impl; [exact Hb|]. intros [l0 u0]. simpl.
        rewrite lookup_insert_is_Some. destruct (decide (manga = l0)); auto. }
      exists w'. split; [done|]. split; [by rewrite Hl|]. split.
      { rewrite Ht. subst w1. destruct w as [h ls' tr]. simpl in *.
        by rewrite <- (titles_store_same h ls' tr manga m (assignLink m url)). }
      intros l. rewrite Hh. subst w1. cbn [heap emits store].
      unfold reloadedLink. cbn [foldl fst snd].
      destruct (decide (manga = l)) as [->|Hne].
      * rewrite lookup_insert_eq, Hm. simpl.
        by rewrite bool_decide_eq_true_2.
      * rewrite lookup_insert_ne by done.
        destruct (heap w !! l) as [m0|]; [|done]. simpl.
        by rewrite bool_decide_eq_false_2.
Qed.

(** X9. The confirm button of the reload dialog keeps the listeners of the
    prompts that were cancelled: a cancel click unbinds none of them, and a
    confirm click runs them all, in the order of the prompts. So after a
    prompt for a record and a click on confirm, every record ends with the
    address of the last prompt bound for it, the cancelled ones included,
    and the prompted record with the address it was offered; the records
    keep their other fields, [lastRead] included, and the list and the
    titles stay as they were. *)
Theorem reload_confirm_runs_every_prompt (p : ReloadPage) (manga : loc)
    (m : Manga) (tabs : list ChromeTab) :
  listenersBound p →
  heap (reload_world p) !! manga = Some m →
  link m ≠ info_url (getCurrentTabInfo tabs) →
  let newUrl := info_url (getCurrentTabInfo tabs) in
  let listeners := (onConfirmReload (reload_dialog p) ++ [(manga, newUrl)])%list in
  ∃ p1 p2,
    promptLinkReload p manga tabs = Some p1
    ∧ onConfirmReload (reload_dialog p1) = listeners
    ∧ onConfirmReload (reload_dialog (clickCancelReload p1)) = listeners
    ∧ onConfirmReload (reload_dialog (clickCancelReloadCross p1)) = listeners
    ∧ clickConfirmReload p1 = Some p2
    ∧ onConfirmReload (reload_dialog p2) = []
    ∧ mangaList (reload_world p2) = mangaList (reload_world p)
    ∧ titles (reload_world p2) = titles (reload_world p)
    ∧ (∀ l, heap (reload_world p2) !! l
            = (λ m0, assignLink m0 (reloadedLink listeners l (link m0)))
                <$> heap (reload_world p) !! l)
    ∧ link <$> heap (reload_world p2) !! manga = Some newUrl.
Proof.
  intros Hb Hm Hlink newUrl listeners.
  unfold promptLinkReload. rewrite Hm. cbn [mbind option_bind].
  rewrite bool_decide_eq_false_2 by done.
  eexists. 
  destruct (runConfirmReload_spec listeners
              (emit (E_showReloadDialog manga newUrl) (reload_world p)))
    as (w' & Hrun & Hl & Ht & Hh).
  { apply Forall_app. split; [exact Hb|]. apply Forall_singleton. simpl. eauto. }
  exists (mkReloadPage w' (mkReloadDialog []
            (S (onCancelReload (reload_dialog p)))
            (S (onCancelReloadCross (reload_dialog p))))).
  split; [done|]. split; [done|]. split; [done|]. split; [done|].
  split.
  { unfold clickConfirmReload. cbn [reload_world reload_dialog onConfirmReload].
    fold newUrl. fold listeners. rewrite Hrun. done. }
  split; [done|]. split; [done|]. split; [done|]. split; [exact Hh|].
  cbn [reload_world]. rewrite Hh. cbn [heap emit]. rewrite Hm. simpl. f_equal.
  unfold reloadedLink, listeners. rewrite foldl_snoc. simpl.
  by rewrite bool_decide_eq_true_2.
Qed.

Lemma reload_confirm_runs_every_prompt_witness :
  let newUrl := info_url (getCurrentTabInfo tabs_A) in
  let listeners :=
    (onConfirmReload (reload_dialog reload_page_stale) ++ [(0, newUrl)])%list in
  ∃ p1 p2,
    promptLinkReload reload_page_stale 0 tabs_A = Some p1
    ∧ onConfirmReload (reload_dialog p1) = listeners
    ∧ onConfirmReload (reload_dialog (clickCancelReload p1)) = listeners
    ∧ onConfirmReload (reload_dialog (clickCancelReloadCross p1)) = listeners
    ∧ clickConfirmReload p1 = Some p2
    ∧ onConfirmReload (reload_dialog p2) = []
    ∧ mangaList (reload_world p2) = mangaList (reload_world reload_page_stale)
    ∧ titles (reload_world p2) = titles (reload_world reload_page_stale)
    ∧ (∀ l, heap (reload_world p2) !! l
            = (λ m0, assignLink m0 (reloadedLink listeners l (link m0)))
                <$> heap (reload_world reload_page_stale) !! l)
    ∧ link <$> heap (reload_world p2) !! 0 = Some newUrl.
Proof.
  apply (reload_confirm_runs_every_prompt reload_page_stale 0 manga_A tabs_A).
  - apply Forall_singleton. vm_compute. eauto.
  - reflexivity.
  - discriminate.
Defined.

(** [store=[{title:"A", link:"x"}, {title:"B", link:"y"}]]: the edit of ["B"]
    on the tab at ["z"] prompts and is cancelled; the edit of ["A"] on the
    tab at ["https://a/"] prompts and is confirmed. Both links are
    rewritten. *)
Example stale_reload_scenario :
  clickCancelReload <$> promptLinkReload reload_page_AB 1 tabs_z
  = Some reload_page_stale
  ∧ (λ p, (λ m, (title m, link m)) <$> records (reload_world p))
      <$> (promptLinkReload reload_page_stale 0 tabs_A ≫= clickConfirmReload)
    = Some [("A", "https://a/"); ("B", "z")].
Proof. split; reflexivity. Qed.

(** ** Image errors *)

Lemma findByTitle_store_same w l m m' t :
  heap w !! l = Some m → title m' = title m →
  findByTitle (store l m' w) t = findByTitle w t.
Proof.
  intros Hm Ht. unfold findByTitle, store. simpl.
  induction (mangaList w) as [|l0 ls IH]; [done|]. simpl.
  destruct (decide (l = l0)) as [->|Hne].
  - rewrite lookup_insert_eq, Hm, Ht. by rewrite IH.
  - rewrite lookup_insert_ne by done. by rewrite IH.
Qed.

Lemma findByTitle_None w t : findByTitle w t = None ↔ t ∉ titles w.
Proof.
  rewrite <- isNameUsed_false. unfold findByTitle, isNameUsed.
  induction (mangaList w) as [|l0 ls IH]; [done|]. simpl.
  destruct (match heap w !! l0 with Some manga => _ | None => false end);
    simpl; [done|apply IH].
Qed.

(** X10. The first [error] event of an item's image (the record's
    [isImageWorking] being set) clears the flag and points the image to the
    theme's placeholder, touching nothing else; from then on [error] events
    of that item do nothing, and every rendering of the record shows the
    placeholder. *)
Theorem image_error_falls_back_once (w : World) (t : string) (manga : loc)
    (src : string) (dark : bool) :
  findByTitle w t = Some manga →
  ∃ m w' src',
    heap w !! manga = Some m
    ∧ imageErrorListener w (Some t) "IMG" src dark = Some (Done (w', src'))
    ∧ heap w' = <[manga := setIsImageWorking false m]> (heap w)
    ∧ mangaList w' = mangaList w
    ∧ (isImageWorking m = true → src' = handleImageTheme dark)
    ∧ (isImageWorking m = false → w' = w ∧ src' = src)
    ∧ (∀ dark', img_src (createMangaElement dark' (setIsImageWorking false m))
                = handleImageTheme dark')
    ∧ (∀ src'' dark',
         imageErrorListener w' (Some t) "IMG" src'' dark'
         = Some (Done (w', src''))).
Proof.
  intros Hfind. pose proof (findByTitle_Some _ _ _ Hfind) as (_ & m & Hm & Ht).
  exists m. unfold imageErrorListener. cbn [getClosestManga mbind option_bind].
  rewrite Hfind, bool_decide_eq_true_2 by done. rewrite Hm.
  cbn [mbind option_bind]. destruct (isImageWorking m) eqn:Hiw.
  - do 2 eexists. split; [done|]. split; [done|]. split; [done|].
    split; [done|]. split; [done|]. split; [done|]. split; [done|].
    intros src'' dark'.
    rewrite (findByTitle_store_same w manga m) by done. rewrite Hfind.
    cbn [heap store]. rewrite lookup_insert_eq. done.
  - exists w, src. split; [done|]. split; [done|]. split.
    { rewrite insert_id; [done|]. rewrite Hm. f_equal.
      destruct m; simpl in *; by subst. }
    split; [done|]. split; [done|]. split; [done|]. split; [done|].
    intros src'' dark'. rewrite Hfind, Hm. cbn [mbind option_bind].
    by rewrite Hiw.
Qed.

Lemma image_error_falls_back_once_witness :
  ∃ m w' src',
    heap store_AB !! 1 = Some m
    ∧ imageErrorListener store_AB (Some "B") "IMG" "y.png" true
      = Some (Done (w', src'))
    ∧ heap w' = <[1 := setIsImageWorking false m]> (heap store_AB)
    ∧ mangaList w' = mangaList store_AB
    ∧ (isImageWorking m = true → src' = handleImageTheme true)
    ∧ (isImageWorking m = false → w' = store_AB ∧ src' = "y.png")
    ∧ (∀ dark', img_src (createMangaElement dark' (setIsImageWorking false m))
                = handleImageTheme dark')
    ∧ (∀ src'' dark',
         imageErrorListener w' (Some "B") "IMG" src'' dark'
         = Some (Done (w', src''))).
Proof.
  apply (image_error_falls_back_once store_AB "B" 1 "y.png" true). reflexivity.
Defined.

(** X11. An [error] event whose target is an [IMG] throws a [TypeError]
    when the image is in no list item or in an item whose title no record
    has; an [error] event of any other element does nothing. *)
Theorem image_error_without_record (w : World) (itemTitle : option string)
    (tagName src : string) (dark : bool) :
  (getClosestManga w itemTitle = None →
   imageErrorListener w itemTitle "IMG" src dark = Some ThrowsTypeError)
  ∧ (itemTitle = None → getClosestManga w itemTitle = None)
  ∧ (∀ t, itemTitle = Some t → t ∉ titles w → getClosestManga w itemTitle = None)
  ∧ (tagName ≠ "IMG" →
     imageErrorListener w itemTitle tagName src dark = Some (Done (w, src))).
Proof.
  split; [|split; [|split]].
  - intros Hnone. unfold imageErrorListener. by rewrite Hnone.
  - by intros ->.
  - intros t -> Ht. by apply findByTitle_None.
  - intros Htag. unfold imageErrorListener.
    by rewrite bool_decide_eq_false_2.
Qed.

Lemma image_error_without_record_witness :
  (getClosestManga store_A (Some "B") = None →
   imageErrorListener store_A (Some "B") "IMG" "b.png" false = Some ThrowsTypeError)
  ∧ (Some "B" = None → getClosestManga store_A (Some "B") = None)
  ∧ (∀ t, Some "B" = Some t → t ∉ titles store_A →
          getClosestManga store_A (Some "B") = None)
  ∧ ("DIV" ≠ "IMG" →
     imageErrorListener store_A (Some "B") "DIV" "b.png" false
     = Some (Done (store_A, "b.png"))).
Proof. exact (image_error_without_record store_A (Some "B") "DIV" "b.png" false). Defined.

(** ** The click listener *)

Lemma getClosestManga_Some w itemTitle manga :
  getClosestManga w itemTitle = Some manga →
  ∃ t m, itemTitle = Some t ∧ manga ∈ mangaList w
         ∧ heap w !! manga = Some m ∧ title m = t.
Proof.
  destruct itemTitle as [t|]; [|done]. simpl.
  intros (Hin & m & Hm & Ht)%findByTitle_Some. eauto 10.
Qed.

(** X12. Whatever the click listener calls, it calls it on a record of the
    list whose title is the one stored on the clicked list item, and, titles
    being distinct, on the only such record. A click outside every item, or
    in an item whose title no record has, calls nothing. *)
Theorem click_resolves_the_items_record (w : World) (t : ClickTarget) :
  (∀ manga, (∃ h, clickListener w t = Call h manga)
            ∨ (∃ member, clickListener w t = CallInherited member manga) →
     ∃ itemTitle m,
       target_item t = Some itemTitle
       ∧ manga ∈ mangaList w ∧ heap w !! manga = Some m ∧ title m = itemTitle
       ∧ (uniqueTitles w →
          ∀ other m', other ∈ mangaList w → heap w !! other = Some m' →
                      title m' = itemTitle → other = manga))
  ∧ (target_item t = None → clickListener w t = NoCall)
  ∧ (∀ itemTitle, target_item t = Some itemTitle → itemTitle ∉ titles w →
                  clickListener w t = NoCall).
Proof.
  split; [|split].
  - intros manga Hcall.
    assert (Hg : getClosestManga w (target_item t) = Some manga).
    { unfold clickListener in Hcall.
      destruct (getClosestManga w (target_item t)) as [l|];
        [|by destruct Hcall as [[? ?]|[? ?]]].
      destruct (Js.truthy _); [|by destruct Hcall as [[? ?]|[? ?]]].
      destruct (actions _).
      - destruct Hcall as [[? H]|[? H]]; congruence.
      - destruct (bool_decide _); destruct Hcall as [[? H]|[? H]]; congruence. }
    apply getClosestManga_Some in Hg as (itemTitle & m & Hitem & Hin & Hm & Ht).
    exists itemTitle, m. repeat split; try done.
    intros Hu other m' Hother Hm' Ht'.
    apply (uniqueTitles_inj w other manga m' m); [done..|congruence].
  - intros Hnone. unfold clickListener. by rewrite Hnone.
  - intros itemTitle Hitem Hnotin. unfold clickListener. rewrite Hitem. simpl.
    apply findByTitle_None in Hnotin. by rewrite Hnotin.
Qed.

Lemma click_resolves_the_items_record_witness :
  let t := mkClickTarget (Some "B") "path" "" (Some "addCap") in
  (∀ manga, (∃ h, clickListener store_AB t = Call h manga)
            ∨ (∃ member, clickListener store_AB t = CallInherited member manga) →
     ∃ itemTitle m,
       target_item t = Some itemTitle
       ∧ manga ∈ mangaList store_AB ∧ heap store_AB !! manga = Some m
       ∧ title m = itemTitle
       ∧ (uniqueTitles store_AB →
          ∀ other m', other ∈ mangaList store_AB →
                      heap store_AB !! other = Some m' →
                      title m' = itemTitle → other = manga))
  ∧ (target_item t = None → clickListener store_AB t = NoCall)
  ∧ (∀ itemTitle, target_item t = Some itemTitle → itemTitle ∉ titles store_AB →
                  clickListener store_AB t = NoCall).
Proof.
  exact (click_resolves_the_items_record store_AB
           (mkClickTarget (Some "B") "path" "" (Some "addCap"))).
Defined.

(** X13. How the click listener picks the action. A click on a [path] or
    [polygon] inside an [svg] counts as a click on that [svg], whatever id the
    stroke has itself; on any other element only the element's own id counts,
    so that a click on an element without id does nothing, inside an icon or
    not; and an id that is neither one of the five actions nor a member of
    [Object.prototype] calls nothing. *)
Theorem click_picks_the_action (w : World) (item : option string)
    (stroke other id svgId : string) :
  (stroke = "path" ∨ stroke = "polygon" →
   clickListener w (mkClickTarget item stroke id (Some svgId))
   = clickListener w (mkClickTarget item "svg" svgId (Some svgId)))
  ∧ (other ≠ "path" → other ≠ "polygon" →
     (∀ svg, clickListener w (mkClickTarget item other id svg)
             = clickListener w (mkClickTarget item other id None))
     ∧ (∀ svg, clickListener w (mkClickTarget item other "" svg) = NoCall))
  ∧ (actions id = None → id ∉ objectPrototypeMembers →
     clickListener w (mkClickTarget item "button" id None) = NoCall).
Proof.
  unfold clickListener. cbn [target_item target_tagName target_id target_svg_id].
  split; [|split].
  - intros [-> | ->]; destruct (getClosestManga w item); done.
  - intros H1 H2. split; intros svg.
    + by rewrite !(bool_decide_eq_false_2 (other = _)) by done.
    + destruct (getClosestManga w item); [|done].
      by rewrite !(bool_decide_eq_false_2 (other = _)) by done.
  - intros Hact Hproto. destruct (getClosestManga w item); [|done].
    rewrite !(bool_decide_eq_false_2 ("button" = _)) by done. cbn [orb].
    rewrite Hact. destruct (Js.truthy id); [|done].
    by rewrite bool_decide_eq_false_2.
Qed.

Lemma click_picks_the_action_witness :
  ("polygon" = "path" ∨ "polygon" = "polygon" →
   clickListener store_AB (mkClickTarget (Some "A") "polygon" "manga-date" (Some "fav"))
   = clickListener store_AB (mkClickTarget (Some "A") "svg" "fav" (Some "fav")))
  ∧ ("line" ≠ "path" → "line" ≠ "polygon" →
     (∀ svg, clickListener store_AB (mkClickTarget (Some "A") "line" "manga-date" svg)
             = clickListener store_AB (mkClickTarget (Some "A") "line" "manga-date" None))
     ∧ (∀ svg, clickListener store_AB (mkClickTarget (Some "A") "line" "" svg)
               = NoCall))
  ∧ (actions "manga-date" = None → "manga-date" ∉ objectPrototypeMembers →
     clickListener store_AB (mkClickTarget (Some "A") "button" "manga-date" None)
     = NoCall).
Proof.
  exact (click_picks_the_action store_AB (Some "A") "polygon" "line" "manga-date"
           "fav").
Defined.

Example click_on_trash_line_does_nothing :
  clickListener store_AB (mkClickTarget (Some "A") "line" "" (Some "delete")) = NoCall
  ∧ clickListener store_AB (mkClickTarget (Some "A") "path" "" (Some "delete"))
    = Call H_delete 0
  ∧ clickListener store_AB (mkClickTarget (Some "B") "path" "addCap" (Some "addCap"))
    = Call H_addCap 1
  ∧ clickListener store_AB (mkClickTarget (Some "B") "span" "chapter-count" None)
    = NoCall.
Proof. repeat split; reflexivity. Qed.

(** ** The delete confirmation dialog *)

Lemma confirmListener_store st l :
  heap (st.1.1) = heap ((confirmListener st l).1.1)
  ∧ mangaList ((confirmListener st l).1.1)
    = filter (λ m, m ≠ l.1) (mangaList (st.1.1)).
Proof.
  destruct st as [[w items] displayed], l as [manga item]. simpl.
  by case_bool_decide.
Qed.

Lemma foldl_confirmListener_store (ls : list (loc * elem)) st :
  heap ((foldl confirmListener st ls).1.1) = heap (st.1.1)
  ∧ mangaList ((foldl confirmListener st ls).1.1)
    = filter (λ m, m ∉ ls.*1) (mangaList (st.1.1)).
Proof.
  revert st. induction ls as [|l ls IH]; intros st; simpl.
  - split; [done|]. symmetry.
    induction (mangaList st.1.1) as [|x xs IHx]; [done|].
    rewrite filter_cons_True by apply not_elem_of_nil. by f_equal.
  - destruct (IH (confirmListener st l)) as [Hheap Hlist].
    destruct (confirmListener_store st l) as [Hh Hl].
    split; [congruence|]. rewrite Hlist, Hl, list_filter_filter.
    apply list_filter_iff. intros m. rewrite not_elem_of_cons. tauto.
Qed.

Lemma cancelled_opens (cancelled : list (loc * elem)) (p : Page) :
  let p' := foldl (λ p l, clickCancelConfirm (handleMangaDeletion p l.1 l.2))
                  p cancelled in
  page_world p' = page_world p
  ∧ page_items p' = page_items p
  ∧ onConfirm (page_dialog p') = (onConfirm (page_dialog p) ++ cancelled)%list
  ∧ (cancelled ≠ [] → confirm_displayed (page_dialog p') = false).
Proof.
  revert p. induction cancelled as [|[manga item] ls IH] using rev_ind; intros p.
  - simpl. by rewrite app_nil_r.
  - rewrite foldl_snoc. cbn zeta in *.
    destruct (IH p) as (Hw & Hi & Hc & _).
    cbn [clickCancelConfirm handleMangaDeletion page_world page_items page_dialog
         onConfirm confirm_displayed onCancelConfirm fst snd].
    rewrite Hw, Hi, Hc, <- app_assoc. done.
Qed.

(** X14. The [confirm] listeners of the dialog pile up: cancelling leaves the
    one bound at opening in place. After any number of deletions opened and
    cancelled, confirming one more deletion removes from the list that record
    and every record whose deletion was cancelled before; no other list entry
    and no object is touched, and no [confirm] listener is left. *)
Theorem cancelled_deletions_run_on_confirm (p : Page)
    (cancelled : list (loc * elem)) (manga : loc) (item : elem) :
  onConfirm (page_dialog p) = [] →
  let p1 := foldl (λ p l, clickCancelConfirm (handleMangaDeletion p l.1 l.2))
                  p cancelled in
  let p2 := clickConfirm (handleMangaDeletion p1 manga item) in
  page_world p1 = page_world p
  ∧ mangaList (page_world p2)
    = filter (λ m, m ≠ manga ∧ m ∉ cancelled.*1) (mangaList (page_world p))
  ∧ heap (page_world p2) = heap (page_world p)
  ∧ onConfirm (page_dialog p2) = [].
Proof.
  intros Hnone p1 p2.
  destruct (cancelled_opens cancelled p) as (Hw & Hi & Hc & _).
  fold p1 in Hw, Hi, Hc. rewrite Hnone in Hc. simpl in Hc.
  split; [done|]. subst p2. unfold clickConfirm.
  cbn [handleMangaDeletion page_world page_items page_dialog onConfirm
       confirm_displayed onCancelConfirm onCancelConfirmCross].
  rewrite Hc, Hw.
  destruct (foldl_confirmListener_store (cancelled ++ [(manga, item)])
              (page_world p, page_items p1, true)) as [Hheap Hlist].
  destruct (foldl confirmListener _ _) as [[w' items'] displayed'].
  simpl in *. split; [|done]. rewrite Hlist. apply list_filter_iff.
  intros m. rewrite fmap_app, elem_of_app. simpl.
  rewrite list_elem_of_singleton. tauto.
Qed.

Lemma cancelled_deletions_run_on_confirm_witness :
  let p := mkPage store_ABC [10; 11; 12] (mkConfirmationDialog false [] 0 0) in
  let p1 := foldl (λ p l, clickCancelConfirm (handleMangaDeletion p l.1 l.2))
                  p [(0, 10)] in
  let p2 := clickConfirm (handleMangaDeletion p1 2 12) in
  page_world p1 = page_world p
  ∧ mangaList (page_world p2)
    = filter (λ m, m ≠ 2 ∧ m ∉ [(0, 10)].*1) (mangaList (page_world p))
  ∧ heap (page_world p2) = heap (page_world p)
  ∧ onConfirm (page_dialog p2) = [].
Proof.
  apply (cancelled_deletions_run_on_confirm
           (mkPage store_ABC [10; 11; 12] (mkConfirmationDialog false [] 0 0))
           [(0, 10)] 2 12).
  reflexivity.
Defined.

(** Opening the dialog on ["A"], cancelling, opening it on ["C"] and
    confirming leaves ["B"] alone in the list. *)
Example cancel_then_confirm_scenario :
  let p := mkPage store_ABC [10; 11; 12] (mkConfirmationDialog false [] 0 0) in
  let p2 := clickConfirm
              (handleMangaDeletion
                 (clickCancelConfirm (handleMangaDeletion p 0 10)) 2 12) in
  titles (page_world p2) = ["B"]
  ∧ page_items p2 = [11]
  ∧ confirm_displayed (page_dialog p2) = false.
Proof. repeat split; reflexivity. Qed.

(** X15. With no listener left over, a deletion that is opened and confirmed
    while its list item is in the container is [deleteManga] on that record:
    the record leaves the list, its item leaves the container, the list is
    saved once, and the dialog is hidden. *)
Theorem confirmed_deletion (p : Page) (manga : loc) (item : elem) :
  onConfirm (page_dialog p) = [] →
  item ∈ page_items p →
  let p' := clickConfirm (handleMangaDeletion p manga item) in
  page_world p' = deleteManga (page_world p) manga
  ∧ page_items p' = filter (λ e, e ≠ item) (page_items p)
  ∧ confirm_displayed (page_dialog p') = false
  ∧ onConfirm (page_dialog p') = []
  ∧ trace (page_world p')
    = (trace (page_world p) ++ [E_removeItemElement; E_saveMangas])%list.
Proof.
  intros Hnone Hitem p'. subst p'. unfold clickConfirm, handleMangaDeletion.
  cbn [page_world page_items page_dialog onConfirm confirm_displayed
       onCancelConfirm onCancelConfirmCross].
  rewrite Hnone. simpl. by rewrite bool_decide_eq_true_2.
Qed.

Lemma confirmed_deletion_witness :
  let p := mkPage store_ABC [10; 11; 12] (mkConfirmationDialog false [] 0 0) in
  let p' := clickConfirm (handleMangaDeletion p 1 11) in
  page_world p' = deleteManga (page_world p) 1
  ∧ page_items p' = filter (λ e, e ≠ 11) (page_items p)
  ∧ confirm_displayed (page_dialog p') = false
  ∧ onConfirm (page_dialog p') = []
  ∧ trace (page_world p')
    = (trace (page_world p) ++ [E_removeItemElement; E_saveMangas])%list.
Proof.
  apply (confirmed_deletion
           (mkPage store_ABC [10; 11; 12] (mkConfirmationDialog false [] 0 0))
           1 11).
  - reflexivity.
  - apply list_elem_of_In. simpl. auto.
Defined.

(** ** Opening the edit form and submitting it untouched *)

Lemma trimEnd_noWhiteSpace (s : string) : noWhiteSpace s = true → Js.trimEnd s = s.
Proof.
  induction s as [|c s IH]; [done|]. simpl.
  intros [Hc Hs]%andb_true_iff. rewrite (IH Hs).
  destruct s; [|done]. apply negb_true_iff in Hc. by rewrite Hc.
Qed.

Lemma trim_noWhiteSpace (s : string) : noWhiteSpace s = true → Js.trim s = s.
Proof.
  intros Hs. unfold Js.trim.
  assert (Js.trimStart s = s) as ->; [|by apply trimEnd_noWhiteSpace].
  destruct s as [|c s]; [done|]. simpl in *.
  apply andb_true_iff in Hs as [Hc _]. apply negb_true_iff in Hc. by rewrite Hc.
Qed.

Lemma noWhiteSpace_pretty_N_char (d : N) :
  (d < 10)%N → Js.isWhiteSpace (pretty_N_char d) = false.
Proof.
  intros Hd.
  assert (d = 0 ∨ d = 1 ∨ d = 2 ∨ d = 3 ∨ d = 4 ∨ d = 5 ∨ d = 6 ∨ d = 7
          ∨ d = 8 ∨ d = 9)%N as Hcases by lia.
  repeat destruct Hcases as [->|Hcases]; try subst d; reflexivity.
Qed.

Lemma noWhiteSpace_pretty_N_go (x : N) (s : string) :
  noWhiteSpace s = true → noWhiteSpace (pretty_N_go x s) = true.
Proof.
  revert s. induction (N.lt_wf_0 x) as [x _ IH]; intros s Hs.
  destruct (decide (x = 0)%N) as [->|Hx]; [by rewrite pretty_N_go_0|].
  rewrite pretty_N_go_step by lia. apply IH; [apply N.div_lt; lia|].
  simpl. rewrite noWhiteSpace_pretty_N_char by (apply N.mod_lt; lia). done.
Qed.

Lemma noWhiteSpace_toString (n : Z) : noWhiteSpace (Js.toString n) = true.
Proof.
  assert (Hpos : ∀ p : positive, noWhiteSpace (pretty (Npos p)) = true).
  { intros p. unfold pretty, pretty_N. rewrite decide_False by done.
    by apply noWhiteSpace_pretty_N_go. }
  unfold Js.toString, pretty, pretty_Z. destruct n as [|p|p]; [done|apply Hpos|].
  change (noWhiteSpace (String "-" (pretty (Npos p))) = true).
  simpl. apply Hpos.
Qed.

Lemma or_else_empty (s : string) : Js.or_else s "" = s.
Proof. unfold Js.or_else. destruct (Js.truthy s) eqn:E; [done|]. by apply truthy_false in E. Qed.

(** What [getMangaFormData] reads back from a form [fillMangaForm] filled. *)
Lemma getMangaFormData_fillMangaForm w m tabs :
  title m ≠ "" → link m ≠ "" → (0 ≤ readChapters m)%Z →
  Js.trim (title m) = title m → Js.trim (image m) = image m →
  Js.trim (link m) = link m →
  getMangaFormData w (fillMangaForm m) tabs
  = Some (mkMangaData (image m) (title m) (link m) true (readChapters m)
                      (favorite m)).
Proof.
  intros Htitle Hlink Hrc Ht Hi Hl.
  unfold getMangaFormData, fillMangaForm.
  cbn [field_image field_title field_link field_readChapters field_favorite].
  rewrite !or_else_empty, Ht, Hi, Hl.
  apply truthy_true in Htitle as ->. cbn [mbind option_bind].
  assert (Num.or_else (Some (readChapters m)) 0 = readChapters m) as ->.
  { simpl. destruct (Z.eqb_spec (readChapters m) 0); congruence. }
  rewrite trim_noWhiteSpace by apply noWhiteSpace_toString.
  rewrite parseInt_toString.
  destruct (Z.ltb_spec (readChapters m) 0); [lia|].
  unfold Js.or_else. apply truthy_true in Hlink as ->.
  by rewrite orb_false_r.
Qed.

Lemma findByTitle_unique w manga m :
  uniqueTitles w → manga ∈ mangaList w → heap w !! manga = Some m →
  findByTitle w (title m) = Some manga.
Proof.
  intros Hu Hin Hm. destruct (findByTitle w (title m)) as [l|] eqn:F.
  - apply findByTitle_Some in F as (Hl & m' & Hm' & Ht). f_equal.
    by apply (uniqueTitles_inj w l manga m' m).
  - exfalso. revert F.
    assert (title m ∈ titles w) as Hused by (apply elem_of_titles; eauto).
    apply isNameUsed_true in Hused. unfold isNameUsed in Hused.
    unfold findByTitle. clear Hin Hu.
    induction (mangaList w) as [|l0 ls IH]; [done|]. simpl in *.
    destruct (match heap w !! l0 with Some _ => _ | None => false end); [done|].
    by apply IH.
Qed.

(** X16. Opening the edit form on a record and submitting it untouched never
    modifies the store: for a record of a store with distinct titles whose
    title and link are not empty, whose title, image and link carry no outer
    white space and whose count is between 0 and [2^53], the form reads back
    exactly the record's data, so the submission only offers the link reload
    or closes the dialogs. *)
Theorem untouched_edit_changes_nothing (w : World) (manga : loc) (m : Manga)
    (tabs : list ChromeTab) (now : string) (tabsReload : list ChromeTab) :
  uniqueTitles w → manga ∈ mangaList w → heap w !! manga = Some m →
  title m ≠ "" → link m ≠ "" → (0 ≤ readChapters m ≤ Num.limit)%Z →
  Js.trim (title m) = title m → Js.trim (image m) = image m →
  Js.trim (link m) = link m →
  ∃ f w',
    handleMangaEdition w manga = Some f
    ∧ form_dataset f = mkDataset (Some "true") (Some (title m))
    ∧ handleFormSubmission w (form_dataset f) (form_fields f) tabs now tabsReload
      = Some w'
    ∧ heap w' = heap w
    ∧ mangaList w' = mangaList w
    ∧ (trace w' = (trace w ++ [E_showReloadDialog manga
                                 (info_url (getCurrentTabInfo tabsReload))])%list
       ∨ trace w' = (trace w ++ [E_closeAllDialogs])%list).
Proof.
  intros Hu Hin Hm Htitle Hlink [Hrc _] Ht Hi Hl.
  assert (Hsub :
    handleFormSubmission w (mkDataset (Some "true") (Some (title m)))
                         (fillMangaForm m) tabs now tabsReload
    = handleLinkReload w manga tabsReload).
  { unfold handleFormSubmission.
    cbn [editMode mangaTitle default from_option id].
    apply truthy_true in Htitle as Htruthy. rewrite Htruthy.
    change (Js.truthy "true") with true. cbn [andb].
    rewrite (findByTitle_unique w manga m) by done.
    unfold updateMangaDetails.
    rewrite getMangaFormData_fillMangaForm by done. cbn [mbind option_bind].
    rewrite Hm. cbn [mbind option_bind].
    unfold validateMangaData. cbn [data_title]. rewrite Htruthy.
    rewrite bool_decide_eq_true_2 by done. cbn [negb andb].
    assert (hasChanges m (mkMangaData (image m) (title m) (link m) true
                                      (readChapters m) (favorite m)) = true) as ->.
    { apply hasChanges_true. by repeat split. }
    done. }
  unfold handleMangaEdition. rewrite Hm. cbn [mbind option_bind].
  eexists. cbn [form_dataset form_fields].
  unfold handleLinkReload in Hsub. rewrite Hm in Hsub.
  cbn [mbind option_bind] in Hsub.
  case_bool_decide; eexists; (split; [reflexivity|]); (split; [reflexivity|]);
    (split; [exact Hsub|]); (split; [done|]); (split; [done|]); auto.
Qed.

Lemma untouched_edit_changes_nothing_witness :
  ∃ f w',
    handleMangaEdition store_ABC 2 = Some f
    ∧ form_dataset f = mkDataset (Some "true") (Some (title manga_C))
    ∧ handleFormSubmission store_ABC (form_dataset f) (form_fields f) tabs_A "now" tabs_A
      = Some w'
    ∧ heap w' = heap store_ABC
    ∧ mangaList w' = mangaList store_ABC
    ∧ (trace w' = (trace store_ABC ++ [E_showReloadDialog 2
                                 (info_url (getCurrentTabInfo tabs_A))])%list
       ∨ trace w' = (trace store_ABC ++ [E_closeAllDialogs])%list).
Proof.
  apply (untouched_edit_changes_nothing store_ABC 2 manga_C tabs_A "now" tabs_A).
  - split.
    + repeat constructor; vm_compute; eauto.
    + apply (bool_decide_unpack _). vm_compute. exact I.
  - apply list_elem_of_In. simpl. auto.
  - reflexivity.
  - discriminate.
  - discriminate.
  - vm_compute. split; discriminate.
  - reflexivity.
  - reflexivity.
  - reflexivity.
Defined.

(** A record whose title was taken from a tab title with outer white space:
    opening the form and submitting it untouched renames the record to the
    trimmed title. *)
Example untouched_edit_trims_title :
  let m := mkManga "" " T " "x" true 0 false "d" "d" in
  let w := mkWorld {[ 0 := m ]} [0] [] in
  (f ← handleMangaEdition w 0;
   w' ← handleFormSubmission w (form_dataset f) (form_fields f) [] "now" [];
   Some (titles w')) = Some ["T"].
Proof. reflexivity. Qed.

(** ** The data model is kept by everything a user can do *)

Lemma elem_of_records (w : World) (m : Manga) :
  m ∈ records w ↔ ∃ l, l ∈ mangaList w ∧ heap w !! l = Some m.
Proof. unfold records. apply list_elem_of_omap. Qed.

Lemma elem_of_records_store w l m' x :
  x ∈ records (store l m' w) → (x = m' ∧ l ∈ mangaList w) ∨ x ∈ records w.
Proof.
  rewrite !elem_of_records. unfold store. simpl. intros (l0 & Hl0 & Hx).
  destruct (decide (l = l0)) as [->|Hne].
  - rewrite lookup_insert_eq in Hx. injection Hx as <-. by left.
  - rewrite lookup_insert_ne in Hx by done. right. eauto.
Qed.

(** Overwriting an object by one with the same title that is valid if the
    old one was. *)
Lemma dataModel_store w l m m' :
  dataModel w → heap w !! l = Some m → title m' = title m →
  (validRecord m → validRecord m') →
  dataModel (store l m' w).
Proof.
  intros [[Halloc Hnd] Hvalid] Hm Ht Hv. split; [split|].
  - destruct w as [h ls tr]. by apply allocated_store.
  - destruct w as [h ls tr]. unfold store. simpl in *.
    by rewrite (titles_store_same h ls tr l m).
  - apply Forall_forall. intros x [[-> Hl]|Hx]%elem_of_records_store.
    + apply Hv. rewrite Forall_forall in Hvalid. apply Hvalid.
      apply elem_of_records. eauto.
    + rewrite Forall_forall in Hvalid. by apply Hvalid.
Qed.

Lemma dataModel_emits es w : dataModel w → dataModel (emits es w).
Proof. done. Qed.

Lemma dataModel_emit e w : dataModel w → dataModel (emit e w).
Proof. done. Qed.

Lemma getMangaFormData_readChapters_nonneg w form tabs d :
  getMangaFormData w form tabs = Some d → form_safe form →
  (0 ≤ data_readChapters d ≤ Num.limit)%Z.
Proof.
  intros Hd. destruct (getMangaFormData_fields _ _ _ _ Hd) as (_ & _ & _ & _ & ->).
  unfold form_safe. destruct (Js.parseInt _) as [n|]; [|by vm_compute].
  intros Hn. destruct (Z.ltb_spec n 0); [by vm_compute | lia].
Qed.

Lemma addNewManga_valid w form tabs now w' :
  uniqueTitles w → Forall validRecord (records w) → form_safe form →
  addNewManga w form tabs now = Some w' → Forall validRecord (records w').
Proof.
  intros [Halloc _] Hvalid Hform. unfold addNewManga.
  destruct (getMangaFormData w form tabs) as [d|] eqn:Hd; simpl; [|done].
  destruct (validateMangaData w d "") as [err|] eqn:V; intros [= <-]; [done|].
  apply validateMangaData_None in V as [Hne _].
  destruct w as [h ls tr]. unfold emits. simpl.
  rewrite (records_alloc h ls tr) by (done || apply (newLoc_fresh (mkWorld h ls tr))).
  apply Forall_app. split; [done|]. apply Forall_singleton. split; [done|].
  simpl. by apply (getMangaFormData_readChapters_nonneg _ _ _ _ Hd).
Qed.

Lemma updateMangaDetails_valid w manga form tabs now tabsReload w' :
  uniqueTitles w → Forall validRecord (records w) → form_safe form →
  updateMangaDetails w manga form tabs now tabsReload = Some w' →
  Forall validRecord (records w').
Proof.
  intros Hu Hvalid Hform. unfold updateMangaDetails, handleLinkReload.
  destruct (getMangaFormData w form tabs) as [d|] eqn:Hd; simpl; [|done].
  destruct (heap w !! manga) as [m|] eqn:Hm; simpl; [|done].
  destruct (validateMangaData w d (title m)) as [err|] eqn:V;
    [by intros [= <-]|].
  destruct (hasChanges m d).
  { case_bool_decide; by intros [= <-]. }
  intros [= <-]. apply validateMangaData_None in V as [Hne _].
  apply Forall_forall.
  intros x [[-> Hl]|Hx]%(elem_of_records_store w manga (assignData m d now)).
  - split; [done|]. simpl.
    by apply (getMangaFormData_readChapters_nonneg _ _ _ _ Hd).
  - rewrite Forall_forall in Hvalid. by apply Hvalid.
Qed.

Lemma deleteManga_valid w manga :
  Forall validRecord (records w) → Forall validRecord (records (deleteManga w manga)).
Proof.
  rewrite !Forall_forall. intros Hvalid x Hx. apply Hvalid.
  apply elem_of_records in Hx as (l & Hl & Hm). simpl in *.
  apply list_elem_of_filter in Hl as [_ Hl]. apply elem_of_records. eauto.
Qed.

Lemma step_dataModel w op w' :
  dataModel w → ui_scoped w (UiForm op) → step w op = Some w' → dataModel w'.
Proof.
  intros [Hu Hvalid] Hs Hstep. split; [by apply (step_unique w op)|].
  destruct op; simpl in Hstep, Hs.
  - by apply (addNewManga_valid w form tabs now).
  - unfold handleFormSubmission in Hstep. destruct (_ && _)%bool.
    + destruct (findByTitle w _) as [manga|].
      * by apply (updateMangaDetails_valid w manga form tabs now tabsReload).
      * by injection Hstep as <-.
    + destruct (addNewManga w form tabs now) as [w1|] eqn:A; simpl in Hstep; [|done].
      injection Hstep as <-. change (Forall validRecord (records w1)).
      by apply (addNewManga_valid w form tabs now).
  - destruct Hs as [_ Hs].
    by apply (updateMangaDetails_valid w manga form tabs now tabsReload).
  - injection Hstep as <-. by apply deleteManga_valid.
Qed.

Lemma heap_grows_store w l m' :
  heap_grows w (store l m' w).
Proof.
  intros l0 Hl0. simpl. rewrite lookup_insert_is_Some.
  destruct (decide (l = l0)); auto.
Qed.

(** What a chapter button does to the world. *)
Lemma chapter_button_world w manga m operation item maxChapters now sortOption :
  heap w !! manga = Some m → operation = "+" ∨ operation = "-" →
  ∃ w0 es count,
    outcomeWorld <$> handleChapterUpdate w manga operation 1 item maxChapters
                                         now sortOption
    = Some (emits es (store manga (setLastRead now (setReadChapters count m)) w0))
    ∧ (w0 = w ∨ ∃ e, w0 = emit e w)
    ∧ ((0 ≤ readChapters m ≤ Num.limit)%Z → (0 ≤ count ≤ Num.limit)%Z).
Proof.
  intros Hm Hop. unfold handleChapterUpdate. rewrite Hm.
  cbn [mbind option_bind]. rewrite Num_parseInt_amount, Num_parseInt_or_0.
  change (if (1 =? 0)%Z then 1%Z else 1%Z) with 1%Z.
  destruct Hop as [-> | ->].
  - rewrite !bool_decide_eq_true_2 by done. rewrite finishChapterUpdate_eq.
    cbn [fmap option_fmap option_map outcomeWorld].
    destruct (Num.add (readChapters m) 1 >? maxChapters)%Z; case_bool_decide;
      eexists _, _, _; (split; [reflexivity|]); (split; [eauto|]);
      apply Num_add_1_limit.
  - rewrite bool_decide_eq_false_2 by done.
    rewrite !bool_decide_eq_true_2 by done. rewrite finishChapterUpdate_eq.
    cbn [fmap option_fmap option_map outcomeWorld].
    destruct (Z.leb_spec (readChapters m) 0); case_bool_decide;
      eexists _, _, _; (split; [reflexivity|]); (split; [eauto|]);
      intros Hr; rewrite ?Num_sub_safe; unfold Num.safe, Num.limit in *; lia.
Qed.

Lemma uiStep_total w op : ui_scoped w op → is_Some (uiStep w op).
Proof.
  destruct op as [op| | | | |]; simpl.
  - intros Hs. apply step_total. by destruct op; simpl in *; [..|destruct Hs|].
  - intros [m Hm].
    destruct (chapter_button_world w manga m "+" item maxChapters now sortOption Hm)
      as (? & ? & ? & -> & _); [by left|]. by eexists.
  - intros [m Hm].
    destruct (chapter_button_world w manga m "-" item maxChapters now sortOption Hm)
      as (? & ? & ? & -> & _); [by right|]. by eexists.
  - intros [m Hm]. unfold handleFavoriteToggle. rewrite Hm. by eexists.
  - intros [m Hm]. unfold confirmReload. rewrite Hm. simpl.
    case_bool_decide; by eexists.
  - intros _. unfold imageErrorListener.
    destruct (bool_decide (tagName = "IMG")); [|by eexists].
    destruct (getClosestManga w itemTitle) as [l|] eqn:G; [|by eexists].
    apply getClosestManga_Some in G as (? & m & _ & _ & Hm & _). rewrite Hm. simpl.
    destruct (isImageWorking m); by eexists.
Qed.

Lemma uiStep_heap w op w' : uiStep w op = Some w' → heap_grows w w'.
Proof.
  destruct op as [op| | | | |]; simpl.
  - apply step_heap.
  - intros H l [m0 Hl].
    destruct (heap w !! manga) as [m|] eqn:Hm;
      [|by unfold handleChapterUpdate in H; rewrite Hm in H].
    destruct (chapter_button_world w manga m "+" item maxChapters now sortOption Hm)
      as (w0 & es & c & Heq & Hw0 & _); [by left|].
    rewrite Heq in H. injection H as <-. simpl.
    rewrite lookup_insert_is_Some. destruct (decide (manga = l)); [by left|right].
    split; [done|]. destruct Hw0 as [->|[e ->]]; simpl; by eexists.
  - intros H l [m0 Hl].
    destruct (heap w !! manga) as [m|] eqn:Hm;
      [|by unfold handleChapterUpdate in H; rewrite Hm in H].
    destruct (chapter_button_world w manga m "-" item maxChapters now sortOption Hm)
      as (w0 & es & c & Heq & Hw0 & _); [by right|].
    rewrite Heq in H. injection H as <-. simpl.
    rewrite lookup_insert_is_Some. destruct (decide (manga = l)); [by left|right].
    split; [done|]. destruct Hw0 as [->|[e ->]]; simpl; by eexists.
  - unfold handleFavoriteToggle. destruct (heap w !! manga) as [m|]; [|done].
    simpl. intros [= <-]. apply (heap_grows_store w).
  - unfold confirmReload. destruct (heap w !! manga) as [m|]; [|done]. simpl.
    case_bool_decide; intros [= <-]; [by intros l Hl|].
    apply (heap_grows_store w).
  - unfold imageErrorListener.
    destruct (bool_decide (tagName = "IMG")); [|by intros [= <-] l Hl].
    destruct (getClosestManga w itemTitle) as [l0|]; [|by intros [= <-] l Hl].
    destruct (heap w !! l0) as [m|]; [|done]. simpl.
    destruct (isImageWorking m); intros [= <-]; [|by intros l Hl].
    apply (heap_grows_store w).
Qed.

Lemma dataModel_store_emit w0 w l m m' :
  dataModel w → (w0 = w ∨ ∃ e, w0 = emit e w) →
  heap w !! l = Some m → title m' = title m →
  (validRecord m → validRecord m') →
  dataModel (store l m' w0).
Proof.
  intros Hd [->|[e ->]] Hm Ht Hv.
  - by apply (dataModel_store w l m).
  - by apply (dataModel_store (emit e w) l m); [apply dataModel_emit|..].
Qed.

Lemma uiStep_dataModel w op w' :
  dataModel w → ui_scoped w op → uiStep w op = Some w' → dataModel w'.
Proof.
  intros Hd Hs. destruct op as [op| | | | |]; cbn [uiStep].
  - by apply step_dataModel.
  - intros H. destruct (heap w !! manga) as [m|] eqn:Hm;
      [|by unfold handleChapterUpdate in H; rewrite Hm in H].
    destruct (chapter_button_world w manga m "+" item maxChapters now sortOption Hm)
      as (w0 & es & c & Heq & Hw0 & Hc); [by left|].
    rewrite Heq in H. injection H as <-. apply dataModel_emits.
    apply (dataModel_store_emit w0 w manga m); [done..|].
    intros [Ht Hr]. split; [done|]. by apply Hc.
  - intros H. destruct (heap w !! manga) as [m|] eqn:Hm;
      [|by unfold handleChapterUpdate in H; rewrite Hm in H].
    destruct (chapter_button_world w manga m "-" item maxChapters now sortOption Hm)
      as (w0 & es & c & Heq & Hw0 & Hc); [by right|].
    rewrite Heq in H. injection H as <-. apply dataModel_emits.
    apply (dataModel_store_emit w0 w manga m); [done..|].
    intros [Ht Hr]. split; [done|]. by apply Hc.
  - unfold handleFavoriteToggle. destruct (heap w !! manga) as [m|] eqn:Hm; [|done].
    simpl. intros [= <-]. apply dataModel_emit.
    by apply (dataModel_store w manga m).
  - unfold confirmReload. destruct (heap w !! manga) as [m|] eqn:Hm; [|done]. simpl.
    case_bool_decide; intros [= <-]; [done|]. apply dataModel_emits.
    by apply (dataModel_store w manga m).
  - unfold imageErrorListener.
    destruct (bool_decide (tagName = "IMG")); [|by intros [= <-]].
    destruct (getClosestManga w itemTitle) as [l0|]; [|by intros [= <-]].
    destruct (heap w !! l0) as [m|] eqn:Hm; [|done]. simpl.
    destruct (isImageWorking m); intros [= <-]; [|done].
    by apply (dataModel_store w l0 m).
Qed.

(** X17. The store invariant of the data model is kept by everything the
    popup lets a user do: starting from a store with distinct titles whose
    records all have a title and a count between 0 and [2^53], every sequence
    of form submissions, edits, deletions, chapter button clicks, favorite
    toggles, confirmed link reloads and image errors runs to its end (an
    image error may throw) and leaves such a store, provided the chapter
    fields submitted hold at most [2^53]. An operation of the sequence may
    act on a record that an earlier one added. *)
Theorem dataModel_is_kept (w : World) (ops : list UiOp) :
  dataModel w → scopedRun w ops →
  ∃ w', uiRun w ops = Some w' ∧ dataModel w'.
Proof.
  revert w. induction ops as [|op ops IH]; intros w Hd Hs; simpl.
  - eauto.
  - destruct Hs as [Hop Hs].
    destruct (uiStep_total w op Hop) as [w1 Hw1]. rewrite Hw1 in Hs |- *. simpl.
    apply IH; [|done]. by apply (uiStep_dataModel w op).
Qed.

Lemma dataModel_is_kept_witness :
  ∃ w', uiRun store_ABC sample_ui_ops = Some w' ∧ dataModel w'.
Proof.
  apply (dataModel_is_kept store_ABC sample_ui_ops).
  - split; [split|].
    + repeat constructor; vm_compute; eauto.
    + apply (bool_decide_unpack _). vm_compute. exact I.
    + change (Forall validRecord [manga_A; manga_B; manga_C]).
      repeat apply Forall_cons_2; try apply Forall_nil_2;
        (split; [discriminate | vm_compute; split; discriminate]).
  - vm_compute. repeat split; eauto; discriminate.
Defined.

Example sample_ui_run :
  (λ w, (λ m, (title m, readChapters m, favorite m, link m, isImageWorking m))
          <$> records w)
    <$> uiRun store_ABC sample_ui_ops
  = Some [ ("A", 3%Z, false, "https://a/2", true);
           ("C", 3%Z, false, "https://c/", false);
           ("A (1)", 1%Z, false, "https://a/", true) ].
Proof. reflexivity. Qed.

(** ** The first version of the add form *)



Example first_addNewManga_needs_a_link :
  AddManga.addNewManga store_A (mkFormFields "" "C" "" "3" false) "now"
  = AddManga.Rejected AddManga.msg_fields
  ∧ (λ w, titles w) <$> addNewManga store_A (mkFormFields "" "C" "" "3" false) [] "now"
    = Some ["A"; "C"].
Proof. split; reflexivity. Qed.

(** ** Rendering, at every frame and for every batch size *)

Lemma framesFrom_keeps_afterBatches dark inputList (batchSize : Z) frames j st :
  (1 ≤ batchSize)%Z →
  afterBatches dark inputList (Z.to_nat batchSize) j st →
  ∃ st' j', framesFrom dark inputList batchSize frames st = Some st'
            ∧ afterBatches dark inputList (Z.to_nat batchSize) j' st'.
Proof.
  intros Hb. revert j st. induction frames as [|k IH]; intros j st Hinv.
  - by exists st, j.
  - simpl. unfold animationFrame. destruct (scheduled st) eqn:Hs.
    + assert (Hlt : j * Z.to_nat batchSize < length inputList).
      { destruct Hinv as (_ & _ & _ & _ & Hsched & _). by apply Hsched. }
      destruct (loadBatch_afterBatches dark inputList batchSize j st Hb Hinv Hlt)
        as (st1 & -> & Hinv1).
      simpl. by apply (IH (S j)).
    + simpl. exists st, j. split; [by apply framesFrom_idle|done].
Qed.

(** With a batch size of 0 or less, [loadBatch] runs its loop zero times. *)
Lemma loadBatch_stalled dark inputList (batchSize : Z) st :
  (batchSize ≤ 0)%Z → (currentIndex st ≤ 0)%Z →
  ∃ st', loadBatch dark inputList batchSize st = Some st'
         ∧ (currentIndex st' ≤ 0)%Z
         ∧ container st' = container st
         ∧ concat (appends (log st')) = concat (appends (log st)).
Proof.
  intros Hb Hci. unfold loadBatch.
  replace (Z.to_nat (Z.min (currentIndex st + batchSize)
                           (Z.of_nat (length inputList)) - currentIndex st))
    with 0 by lia.
  simpl. eexists. split; [done|]. simpl. split; [lia|].
  split; [by rewrite app_nil_r|].
  rewrite appends_app, concat_app. simpl.
  destruct (_ <? _)%Z; simpl; by rewrite app_nil_r.
Qed.

Lemma framesFrom_stalled dark inputList (batchSize : Z) frames st :
  (batchSize ≤ 0)%Z → (currentIndex st ≤ 0)%Z →
  ∃ st', framesFrom dark inputList batchSize frames st = Some st'
         ∧ container st' = container st
         ∧ concat (appends (log st')) = concat (appends (log st)).
Proof.
  intros Hb. revert st. induction frames as [|k IH]; intros st Hci.
  - by exists st.
  - simpl. unfold animationFrame. destruct (scheduled st).
    + destruct (loadBatch_stalled dark inputList batchSize st Hb Hci)
        as (st1 & -> & Hci1 & Hc1 & Ha1).
      simpl. destruct (IH st1 Hci1) as (st' & -> & Hc & Ha).
      exists st'. split; [done|]. split; congruence.
    + simpl. apply IH, Hci.
Qed.

(** X19. For every batch size, zero and negative ones included, and after
    every number of frames, a [loadMangas] call on a list that stays as it is
    has not read outside the list (it has not thrown), and the fragments it
    has appended so far hold, taken together, a prefix of the list in list
    order: the call appends no record twice and none out of order. *)
Theorem appended_records_are_a_prefix (dark : bool) (inputList : list Manga)
    (batchSize : Z) (frames : nat) :
  ∃ st k,
    render dark inputList batchSize frames = Some st
    ∧ concat (appends (log st)) = rendered dark (take k inputList).
Proof.
  unfold render. destruct (Z.le_gt_cases 1 batchSize) as [Hb|Hb].
  - destruct (loadMangas_afterBatches dark inputList batchSize Hb)
      as (st0 & -> & Hinv0). simpl.
    destruct (framesFrom_keeps_afterBatches dark inputList batchSize frames 1 st0
                Hb Hinv0) as (st & j & -> & Hci & Hcont & Happ & _).
    exists st, (j * Z.to_nat batchSize). split; [done|].
    by rewrite Happ, concat_batches.
  - assert (Hb0 : (batchSize ≤ 0)%Z) by lia.
    unfold loadMangas.
    destruct (loadBatch_stalled dark inputList batchSize
                (mkLoader 0 [] [R_clear] false) Hb0)
      as (st0 & -> & Hci0 & Hc0 & Ha0); [simpl; lia|].
    cbn [mbind option_bind].
    destruct (framesFrom_stalled dark inputList batchSize frames
                (mkLoader (currentIndex st0) (container st0)
                          (log st0 ++ [R_handleBlur]) (scheduled st0)) Hb0 Hci0)
      as (st & -> & Hc & Ha).
    exists st, 0. split; [done|]. cbn [container log] in *.
    rewrite Ha, appends_app, concat_app, Ha0. done.
Qed.

(** ** What an edit leaves alone *)

(** X20. Whatever [updateMangaDetails] decides, it returns, the list keeps
    its entries and their order, and no object but the edited one is written;
    the edited record keeps its [dayAdded], and it is either unchanged or
    saved with [lastRead] set to the current time and [isImageWorking] set
    again. *)
Theorem edit_frame (w : World) (manga : loc) (m : Manga) (form : FormFields)
    (tabs : list ChromeTab) (now : string) (tabsReload : list ChromeTab) :
  heap w !! manga = Some m →
  ∃ w' m',
    updateMangaDetails w manga form tabs now tabsReload = Some w'
    ∧ mangaList w' = mangaList w
    ∧ (∀ l, l ≠ manga → heap w' !! l = heap w !! l)
    ∧ heap w' !! manga = Some m'
    ∧ dayAdded m' = dayAdded m
    ∧ (m' = m ∨ (lastRead m' = now ∧ isImageWorking m' = true)).
Proof.
  intros Hm. unfold updateMangaDetails, handleLinkReload.
  destruct (getMangaFormData_total w form tabs) as [d Hd]. rewrite Hd.
  cbn [mbind option_bind]. rewrite Hm. cbn [mbind option_bind].
  destruct (validateMangaData w d (title m)).
  { exists (emit (E_showModal s) w), m. repeat split; auto. }
  destruct (hasChanges m d).
  { case_bool_decide; eexists _, m; repeat split; auto. }
  eexists _, _. split; [done|]. split; [done|]. cbn [heap emits store].
  split; [by intros l Hl; rewrite lookup_insert_ne|].
  split; [by rewrite lookup_insert_eq|]. split; [done|]. right.
  split; [done|]. simpl.
  by destruct (getMangaFormData_fields _ _ _ _ Hd) as (_ & _ & -> & _).
Qed.

Lemma edit_frame_witness :
  ∃ w' m',
    updateMangaDetails store_AB 0 form_A_y tabs_z "now" tabs_z = Some w'
    ∧ mangaList w' = mangaList store_AB
    ∧ (∀ l, l ≠ 0 → heap w' !! l = heap store_AB !! l)
    ∧ heap w' !! 0 = Some m'
    ∧ dayAdded m' = dayAdded manga_A
    ∧ (m' = manga_A ∨ (lastRead m' = "now" ∧ isImageWorking m' = true)).
Proof.
  apply (edit_frame store_AB 0 manga_A form_A_y tabs_z "now" tabs_z). reflexivity.
Defined.
